(** * Gas Town: agent identity codec, prefix registry and merge slot

    A shallow embedding of

    - [internal/session/registry.go]: the process-wide prefix registry
      ([RegisterPrefix], [PrefixForRig], [RigForPrefix], [IsKnownPrefix],
      [ClearRegistry]);
    - the identity codec of package [session] ([ParseAddress],
      [ParseSessionName], [AgentIdentity.SessionName], [rigPrefix],
      [AgentIdentity.Address]);
    - the merge-slot closures [mergeSlotAcquire] and [mergeSlotRelease] that
      [TestAcquireMainPushSlot_ConcurrentSingleWriter] installs in the
      refinery engineer.

    Go strings are byte sequences: they are modelled by [string], whose
    characters are the bytes.  Go maps are [gmap]s; a missing key reads as
    the zero value, the empty string. *)

From Stdlib Require Import ZArith Lia Ascii String List Bool Wf_nat.
From stdpp Require Import base option decidable gmap strings.

Local Open Scope string_scope.
Local Open Scope Z_scope.

(** Concatenation unfolds on a constructor, as for lists. *)
#[local] Arguments String.append !_ _ / : simpl nomatch.

(** ** The [strings] package, as far as the codec uses it *)

Module GoStrings.

(** [len(s)], as a Go [int]. *)
Definition len (s : string) : Z := Z.of_nat (String.length s).

(** [strings.HasPrefix(s, prefix)]. *)
Fixpoint HasPrefix (s prefix : string) {struct prefix} : bool :=
  match prefix, s with
  | EmptyString, _ => true
  | String _ _, EmptyString => false
  | String p prefix', String c s' =>
      if Ascii.eqb c p then HasPrefix s' prefix' else false
  end.

(** [s[n:]] for a natural [n] within range; the tail is empty beyond it. *)
Fixpoint drop (n : nat) (s : string) : string :=
  match n, s with
  | O, _ => s
  | S _, EmptyString => EmptyString
  | S n', String _ s' => drop n' s'
  end.

(** [s[:n]] for a natural [n] within range. *)
Fixpoint take (n : nat) (s : string) : string :=
  match n, s with
  | O, _ => EmptyString
  | S _, EmptyString => EmptyString
  | S n', String c s' => String c (take n' s')
  end.

(** [s[:i]]: Go panics when [i] is outside [0 .. len(s)]; [None] stands
    for the panic. *)
Definition sliceTo (s : string) (i : Z) : option string :=
  if (0 <=? i) && (i <=? len s) then Some (take (Z.to_nat i) s) else None.

(** [s[i:]], with the same bounds check. *)
Definition sliceFrom (s : string) (i : Z) : option string :=
  if (0 <=? i) && (i <=? len s) then Some (drop (Z.to_nat i) s) else None.

(** [strings.TrimPrefix(s, prefix)]. *)
Definition TrimPrefix (s prefix : string) : string :=
  if HasPrefix s prefix then drop (String.length prefix) s else s.

(** [strings.HasSuffix(s, suffix)]. *)
Definition HasSuffix (s suffix : string) : bool :=
  (String.length suffix <=? String.length s)%nat
  && String.eqb (drop (String.length s - String.length suffix) s) suffix.

(** [strings.TrimSuffix(s, suffix)]. *)
Definition TrimSuffix (s suffix : string) : string :=
  if HasSuffix s suffix
  then take (String.length s - String.length suffix) s
  else s.

(** [strings.Index(s, substr)]: the byte offset of the first occurrence
    of [substr] in [s], or [-1]. *)
Fixpoint Index (s substr : string) : Z :=
  if HasPrefix s substr then 0
  else match s with
       | EmptyString => -1
       | String _ s' =>
           let i := Index s' substr in
           if i <? 0 then -1 else i + 1
       end.

(** [strings.Split(s, sep)] for a separator of one byte, the only kind the
    codec passes: the pieces of [s] between the occurrences of [sep]. *)
Fixpoint Split (s : string) (sep : ascii) : list string :=
  match s with
  | EmptyString => [EmptyString]
  | String c s' =>
      if Ascii.eqb c sep then EmptyString :: Split s' sep
      else match Split s' sep with
           | [] => [String c EmptyString]
           | piece :: pieces => String c piece :: pieces
           end
  end.

(** *** [strings.TrimSpace]

    [TrimSpace] removes the leading and the trailing white space of [s], as
    Unicode defines it.  On the bytes of a string these are the six ASCII
    space characters and the UTF-8 encodings of U+0085, U+00A0, U+1680,
    U+2000 .. U+200A, U+2028, U+2029, U+202F, U+205F and U+3000.
    [spaceWidth s] is the number of bytes of the white-space character
    that starts [s] ([0] when none does). *)

Definition isASCIISpace (c : ascii) : bool :=
  let n := nat_of_ascii c in
  ((9 <=? n) && (n <=? 13) || (n =? 32))%nat.

Definition byteIs (c : ascii) (n : nat) : bool := (nat_of_ascii c =? n)%nat.

Definition byteIn (c : ascii) (lo hi : nat) : bool :=
  ((lo <=? nat_of_ascii c) && (nat_of_ascii c <=? hi))%nat.

Definition spaceWidth (s : string) : nat :=
  match s with
  | EmptyString => 0
  | String c0 r0 =>
      if isASCIISpace c0 then 1
      else match r0 with
      | EmptyString => 0
      | String c1 r1 =>
          if byteIs c0 194 then
            (if byteIs c1 133 || byteIs c1 160 then 2 else 0)
          else match r1 with
          | EmptyString => 0
          | String c2 _ =>
              if byteIs c0 225 then
                (if byteIs c1 154 && byteIs c2 128 then 3 else 0)
              else if byteIs c0 226 then
                (if byteIs c1 128
                    && (byteIn c2 128 138 || byteIn c2 168 169
                        || byteIs c2 175)
                 then 3
                 else if byteIs c1 129 && byteIs c2 159 then 3 else 0)
              else if byteIs c0 227 then
                (if byteIs c1 128 && byteIs c2 128 then 3 else 0)
              else 0
          end
      end
  end%nat.

(** The white-space character that ends [s], if any: UTF-8 is decoded
    backwards from the last byte, so the encoding is sought as a suffix of
    one, two or three bytes. *)
Definition lastSpaceWidth (s : string) : nat :=
  let n := String.length s in
  if ((1 <=? n) && (spaceWidth (drop (n - 1) s) =? 1))%nat then 1%nat
  else if ((2 <=? n) && (spaceWidth (drop (n - 2) s) =? 2))%nat then 2%nat
  else if ((3 <=? n) && (spaceWidth (drop (n - 3) s) =? 3))%nat then 3%nat
  else 0%nat.

(** Leading white space goes first.  [fuel] bounds the number of characters
    removed; [String.length s] is always enough. *)
Fixpoint trimLeftFuel (fuel : nat) (s : string) : string :=
  match fuel with
  | O => s
  | S fuel' =>
      match spaceWidth s with
      | O => s
      | w => trimLeftFuel fuel' (drop w s)
      end
  end.

Fixpoint trimRightFuel (fuel : nat) (s : string) : string :=
  match fuel with
  | O => s
  | S fuel' =>
      match lastSpaceWidth s with
      | O => s
      | w => trimRightFuel fuel' (take (String.length s - w) s)
      end
  end.

Definition TrimLeftSpace (s : string) : string :=
  trimLeftFuel (String.length s) s.

Definition TrimRightSpace (s : string) : string :=
  trimRightFuel (String.length s) s.

Definition TrimSpace (s : string) : string :=
  TrimRightSpace (TrimLeftSpace s).

End GoStrings.

Import GoStrings.

(** [hasByte c s]: the byte [c] occurs in [s]. *)
Fixpoint hasByte (c : ascii) (s : string) : bool :=
  match s with
  | EmptyString => false
  | String c' s' => Ascii.eqb c' c || hasByte c s'
  end.

(** ** The prefix registry ([internal/session/registry.go]) *)

(** The two package-level maps.  [registryMu] serialises every access, so
    each operation below is one atomic step on this pair. *)
Record Registry : Type := mkRegistry {
  prefixToRig : gmap string string;
  rigToPrefix : gmap string string
}.

(** Reading a Go map at a missing key gives the zero value. *)
Definition mapGet (m : gmap string string) (k : string) : string :=
  default "" (m !! k).

(** The registry at start-up, and after [ClearRegistry]. *)
Definition emptyRegistry : Registry := mkRegistry ∅ ∅.

Definition RegisterPrefix (reg : Registry) (prefix rigName : string) : Registry :=
  mkRegistry (<[prefix := rigName]> (prefixToRig reg))
             (<[rigName := prefix]> (rigToPrefix reg)).

Definition PrefixForRig (reg : Registry) (rigName : string) : string :=
  mapGet (rigToPrefix reg) rigName.

Definition RigForPrefix (reg : Registry) (prefix : string) : string :=
  mapGet (prefixToRig reg) prefix.

Definition IsKnownPrefix (reg : Registry) (prefix : string) : bool :=
  bool_decide (is_Some (prefixToRig reg !! prefix)).

Definition ClearRegistry (_ : Registry) : Registry := emptyRegistry.

(** A start-up sequence of [RegisterPrefix] calls, oldest first. *)
Definition registerAll (reg : Registry) (calls : list (string * string)) : Registry :=
  fold_left (fun r call => RegisterPrefix r (fst call) (snd call)) calls reg.

(** A call [RegisterPrefix(prefix, rigName)] is fresh for a registry when it
    displaces nothing: [prefix] and [rigName] are each unregistered or
    already paired with the other. *)
Definition freshFor (reg : Registry) (prefix rigName : string) : bool :=
  bool_decide (prefixToRig reg !! prefix = None
               ∨ prefixToRig reg !! prefix = Some rigName)
  && bool_decide (rigToPrefix reg !! rigName = None
                  ∨ rigToPrefix reg !! rigName = Some prefix).

Fixpoint allFresh (reg : Registry) (calls : list (string * string)) : bool :=
  match calls with
  | [] => true
  | (prefix, rigName) :: calls' =>
      freshFor reg prefix rigName
      && allFresh (RegisterPrefix reg prefix rigName) calls'
  end.

(** The two directions of a registry agree on every pair. *)
Definition Bijective (reg : Registry) : Prop :=
  ∀ prefix rigName : string,
    prefixToRig reg !! prefix = Some rigName
    ↔ rigToPrefix reg !! rigName = Some prefix.

(** ** The identity codec (package [session]) *)

(** [type Role string]. *)
Definition Role : Type := string.

Definition RoleMayor : Role := "mayor".
Definition RoleDeacon : Role := "deacon".
Definition RoleWitness : Role := "witness".
Definition RoleRefinery : Role := "refinery".
Definition RoleCrew : Role := "crew".
Definition RolePolecat : Role := "polecat".

Record AgentIdentity : Type := mkIdentity {
  idRole : Role;
  idRig : string;
  idName : string;
  idPrefix : string
}.

(** The errors the decoders build with [fmt.Errorf], by kind and with the
    string they quote. *)
Inductive ParseError : Type :=
  | EmptyAddress
  | OverseerHasNoSession
  | InvalidAddress (address : string)
  | UnknownHQRole (session : string)
  | NoPrefixRoleSeparator (session : string)
  | EmptyCrewName (session : string)
  | EmptyNameAfterPrefix (session : string).

(** What a decoder call ends in: the identity, the error, or a run-time
    panic of an out-of-range slice expression. *)
Inductive Outcome : Type :=
  | Ok (identity : AgentIdentity)
  | Err (e : ParseError)
  | Panic.

Definition slicing (o : option string) (k : string → Outcome) : Outcome :=
  match o with
  | Some s => k s
  | None => Panic
  end.

(** Modelled from the spec: the constant [HQPrefix] and the session-name
    constructors [MayorSessionName], [DeaconSessionName], [BootSessionName],
    [WitnessSessionName], [RefinerySessionName], [CrewSessionName] and
    [PolecatSessionName] are declared outside the files at hand.  The spec
    gives the town prefix as ["hq-"], the town names as the fixed strings
    [hq-mayor], [hq-deacon] and [hq-boot], and the rig names as
    [prefix-witness], [prefix-refinery], [prefix-crew-name] and
    [prefix-name]. *)
Definition HQPrefix : string := "hq-".
Definition MayorSessionName : string := HQPrefix ++ "mayor".
Definition DeaconSessionName : string := HQPrefix ++ "deacon".
Definition BootSessionName : string := HQPrefix ++ "boot".
Definition WitnessSessionName (rigPrefix : string) : string :=
  rigPrefix ++ "-witness".
Definition RefinerySessionName (rigPrefix : string) : string :=
  rigPrefix ++ "-refinery".
Definition CrewSessionName (rigPrefix name : string) : string :=
  rigPrefix ++ "-crew-" ++ name.
Definition PolecatSessionName (rigPrefix name : string) : string :=
  rigPrefix ++ "-" ++ name.

(** [ParseAddress]: a mail-style address to an identity. *)
Definition ParseAddress (reg : Registry) (address : string) : Outcome :=
  let address := TrimSpace address in
  if String.eqb address "" then Err EmptyAddress
  else if String.eqb address "mayor" || String.eqb address "mayor/"
  then Ok (mkIdentity RoleMayor "" "" "")
  else if String.eqb address "deacon" || String.eqb address "deacon/"
  then Ok (mkIdentity RoleDeacon "" "" "")
  else if String.eqb address "overseer" then Err OverseerHasNoSession
  else
    let address := TrimSuffix address "/" in
    match Split address "/" with
    | [] | [_] => Err (InvalidAddress address)
    | [rig; name] =>
        let prefix := PrefixForRig reg rig in
        if String.eqb name "witness"
        then Ok (mkIdentity RoleWitness rig "" prefix)
        else if String.eqb name "refinery"
        then Ok (mkIdentity RoleRefinery rig "" prefix)
        else if String.eqb name "crew" || String.eqb name "polecats"
        then Err (InvalidAddress address)
        else Ok (mkIdentity RolePolecat rig name prefix)
    | [rig; role; name] =>
        let prefix := PrefixForRig reg rig in
        if String.eqb role "crew"
        then Ok (mkIdentity RoleCrew rig name prefix)
        else if String.eqb role "polecats"
        then Ok (mkIdentity RolePolecat rig name prefix)
        else Err (InvalidAddress address)
    | _ => Err (InvalidAddress address)
    end.

(** [ParseSessionName]: a tmux session name to an identity. *)
Definition ParseSessionName (reg : Registry) (session : string) : Outcome :=
  if HasPrefix session HQPrefix then
    let suffix := TrimPrefix session HQPrefix in
    if String.eqb suffix "mayor" then Ok (mkIdentity RoleMayor "" "" "")
    else if String.eqb suffix "deacon" then Ok (mkIdentity RoleDeacon "" "" "")
    else if String.eqb suffix "boot" then Ok (mkIdentity RoleDeacon "" "boot" "")
    else if String.eqb suffix "overseer"
    then Ok (mkIdentity RoleMayor "" "overseer" "")
    else Err (UnknownHQRole session)
  else
    let idx := Index session "-" in
    if (idx <=? 0) || (idx =? len session - 1)
    then Err (NoPrefixRoleSeparator session)
    else
      slicing (sliceTo session idx) (fun prefix =>
      slicing (sliceFrom session (idx + 1)) (fun rest =>
      let rigName := RigForPrefix reg prefix in
      if String.eqb rest "witness"
      then Ok (mkIdentity RoleWitness rigName "" prefix)
      else if String.eqb rest "refinery"
      then Ok (mkIdentity RoleRefinery rigName "" prefix)
      else if String.eqb rest "boot"
      then Ok (mkIdentity RoleDeacon "" "boot" prefix)
      else if HasPrefix rest "crew-" then
        slicing (sliceFrom rest 5) (fun name =>
        if String.eqb name "" then Err (EmptyCrewName session)
        else Ok (mkIdentity RoleCrew rigName name prefix))
      else if String.eqb rest "" then Err (EmptyNameAfterPrefix session)
      else Ok (mkIdentity RolePolecat rigName rest prefix))).

(** [AgentIdentity.rigPrefix]: the identity's own prefix, else the
    registry's. *)
Definition rigPrefix (reg : Registry) (a : AgentIdentity) : string :=
  if negb (String.eqb (idPrefix a) "") then idPrefix a
  else if negb (String.eqb (idRig a) "")
          && negb (String.eqb (PrefixForRig reg (idRig a)) "")
  then PrefixForRig reg (idRig a)
  else "".

(** [AgentIdentity.SessionName]. *)
Definition SessionName (reg : Registry) (a : AgentIdentity) : string :=
  if String.eqb (idRole a) RoleMayor then MayorSessionName
  else if String.eqb (idRole a) RoleDeacon then
    (if String.eqb (idName a) "boot" then BootSessionName
     else DeaconSessionName)
  else if String.eqb (idRole a) RoleWitness
  then WitnessSessionName (rigPrefix reg a)
  else if String.eqb (idRole a) RoleRefinery
  then RefinerySessionName (rigPrefix reg a)
  else if String.eqb (idRole a) RoleCrew
  then CrewSessionName (rigPrefix reg a) (idName a)
  else if String.eqb (idRole a) RolePolecat
  then PolecatSessionName (rigPrefix reg a) (idName a)
  else "".

(** [AgentIdentity.Address]. *)
Definition Address (a : AgentIdentity) : string :=
  if String.eqb (idRole a) RoleMayor then "mayor"
  else if String.eqb (idRole a) RoleDeacon then "deacon"
  else if String.eqb (idRole a) RoleWitness then idRig a ++ "/witness"
  else if String.eqb (idRole a) RoleRefinery then idRig a ++ "/refinery"
  else if String.eqb (idRole a) RoleCrew
  then idRig a ++ "/crew/" ++ idName a
  else if String.eqb (idRole a) RolePolecat
  then idRig a ++ "/polecats/" ++ idName a
  else "".

(** The rig-level branch of [ParseSessionName], from the registry lookup
    on, once [prefix] and [rest] are cut out of [session]. *)
Definition rigLevel (reg : Registry) (session prefix rest : string) : Outcome :=
  let rigName := RigForPrefix reg prefix in
  if String.eqb rest "witness"
  then Ok (mkIdentity RoleWitness rigName "" prefix)
  else if String.eqb rest "refinery"
  then Ok (mkIdentity RoleRefinery rigName "" prefix)
  else if String.eqb rest "boot"
  then Ok (mkIdentity RoleDeacon "" "boot" prefix)
  else if HasPrefix rest "crew-" then
    (if String.eqb (drop 5 rest) "" then Err (EmptyCrewName session)
     else Ok (mkIdentity RoleCrew rigName (drop 5 rest) prefix))
  else if String.eqb rest "" then Err (EmptyNameAfterPrefix session)
  else Ok (mkIdentity RolePolecat rigName rest prefix).

(** The tail of [ParseAddress], from [strings.Split] on, for an address
    that is already trimmed and none of the special words. *)
Definition bySegments (reg : Registry) (address : string) : Outcome :=
  match Split address "/" with
  | [] | [_] => Err (InvalidAddress address)
  | [rig; name] =>
      let prefix := PrefixForRig reg rig in
      if String.eqb name "witness"
      then Ok (mkIdentity RoleWitness rig "" prefix)
      else if String.eqb name "refinery"
      then Ok (mkIdentity RoleRefinery rig "" prefix)
      else if String.eqb name "crew" || String.eqb name "polecats"
      then Err (InvalidAddress address)
      else Ok (mkIdentity RolePolecat rig name prefix)
  | [rig; role; name] =>
      let prefix := PrefixForRig reg rig in
      if String.eqb role "crew"
      then Ok (mkIdentity RoleCrew rig name prefix)
      else if String.eqb role "polecats"
      then Ok (mkIdentity RolePolecat rig name prefix)
      else Err (InvalidAddress address)
  | _ => Err (InvalidAddress address)
  end.


(** The identities an address can carry in full: a town role has no name and
    no prefix; a rig role has the prefix its rig maps to, no slash in its
    rig or name, and an address without white space around it. *)
Definition addressable (reg : Registry) (a : AgentIdentity) : bool :=
  if String.eqb (idRole a) RoleMayor || String.eqb (idRole a) RoleDeacon
  then String.eqb (idName a) "" && String.eqb (idPrefix a) ""
  else String.eqb (PrefixForRig reg (idRig a)) (idPrefix a)
       && negb (hasByte "/" (idRig a))
       && negb (hasByte "/" (idName a))
       && String.eqb (TrimSpace (Address a)) (Address a).

(** Every byte of [s] is an ASCII space character. *)
Fixpoint allASCIISpace (s : string) : bool :=
  match s with
  | EmptyString => true
  | String c s' => isASCIISpace c && allASCIISpace s'
  end.

(** ** The merge slot

    [TestAcquireMainPushSlot_ConcurrentSingleWriter] backs the slot by one
    variable, [currentHolder], guarded by a mutex; the empty string means
    that nobody holds the slot.  Each closure runs under the mutex, so it is
    one atomic step on that variable. *)

Module MergeSlot.

Record MergeSlotStatus : Type := mkStatus {
  ID : string;
  Available : bool;
  Holder : string
}.

(** The slot as the state machine reads it. *)
Inductive SlotState : Type :=
  | Free
  | Held (holder : string).

Definition slotState (currentHolder : string) : SlotState :=
  if String.eqb currentHolder "" then Free else Held currentHolder.

(** [mergeSlotAcquire]: the new [currentHolder] and the status returned
    (the error is always [nil]; [addWaiter] is not consulted). *)
Definition mergeSlotAcquire (currentHolder holder : string) (addWaiter : bool)
  : string * MergeSlotStatus :=
  if String.eqb currentHolder ""
  then (holder, mkStatus "merge-slot" true holder)
  else (currentHolder, mkStatus "merge-slot" false currentHolder).

(** The error of [mergeSlotRelease]. *)
Inductive ReleaseError : Type :=
  | HolderMismatch (current presented : string).

(** [mergeSlotRelease]: the new [currentHolder] and the error, if any. *)
Definition mergeSlotRelease (currentHolder holder : string)
  : string * option ReleaseError :=
  if negb (String.eqb currentHolder holder)
  then (currentHolder, Some (HolderMismatch currentHolder holder))
  else ("", None).

(** The calls a client can make, and what a call answers. *)
Inductive Call : Type :=
  | Acquire (holder : string) (addWaiter : bool)
  | Release (holder : string).

Inductive Reply : Type :=
  | AcquireReply (status : MergeSlotStatus)
  | ReleaseReply (err : option ReleaseError).

(** One call, run under the mutex. *)
Definition exec (currentHolder : string) (c : Call) : string * Reply :=
  match c with
  | Acquire holder addWaiter =>
      let (next, status) := mergeSlotAcquire currentHolder holder addWaiter in
      (next, AcquireReply status)
  | Release holder =>
      let (next, err) := mergeSlotRelease currentHolder holder in
      (next, ReleaseReply err)
  end.

(** The holder token a call presents. *)
Definition tokenOf (c : Call) : string :=
  match c with
  | Acquire holder _ => holder
  | Release holder => holder
  end.

(** The holders whose grant is live after a call: a granted [Acquire]
    adds its holder, an accepted [Release] removes it. *)
Definition grants (live : list string) (c : Call) (r : Reply) : list string :=
  match r with
  | AcquireReply status =>
      if Available status then tokenOf c :: live else live
  | ReleaseReply None =>
      List.filter (fun h => negb (String.eqb h (tokenOf c))) live
  | ReleaseReply (Some _) => live
  end.

(** A sequence of calls in the order the mutex admits them: the final
    [currentHolder], the live grants and the replies, oldest first. *)
Fixpoint run (currentHolder : string) (live : list string) (calls : list Call)
  : string * list string * list Reply :=
  match calls with
  | [] => (currentHolder, live, [])
  | c :: calls' =>
      let (next, r) := exec currentHolder c in
      let '(final, live', replies) := run next (grants live c r) calls' in
      (final, live', r :: replies)
  end.

(** The two orders in which the mutex can admit two concurrent calls. *)
Definition schedules (a b : Call) : list (list Call) := [[a; b]; [b; a]].

(** The holders a slot state accounts for. *)
Definition holdersOf (st : SlotState) : list string :=
  match st with
  | Free => []
  | Held h => [h]
  end.

End MergeSlot.

(** ** More of the [strings] package *)

(** The line feed, and the double quote. *)
Definition LF : ascii := "010"%char.
Definition DQUOTE : ascii := "034"%char.

(** [strings.Join(elems, sep)]. *)
Fixpoint Join (elems : list string) (sep : string) : string :=
  match elems with
  | [] => ""
  | e :: rest =>
      match rest with
      | [] => e
      | _ :: _ => e ++ sep ++ Join rest sep
      end
  end.

(** [strings.ReplaceAll(s, old, new)] for an [old] of one byte. *)
Fixpoint ReplaceAll (s : string) (old : ascii) (new : string) : string :=
  match s with
  | EmptyString => EmptyString
  | String c s' =>
      if Ascii.eqb c old then new ++ ReplaceAll s' old new
      else String c (ReplaceAll s' old new)
  end.

(** The number of bytes of [s] equal to [c]. *)
Fixpoint countByte (c : ascii) (s : string) : nat :=
  match s with
  | EmptyString => 0
  | String c' s' => (if Ascii.eqb c' c then 1 else 0) + countByte c s'
  end%nat.

(** [strings.ToLower(s)].  A string of ASCII bytes has its letters [A-Z]
    lowered byte by byte.  Any other string goes through
    [strings.Map(unicode.ToLower, s)], whose Unicode tables are not
    modelled: [unicodeLower] stands for it. *)
Definition isASCII (s : string) : bool :=
  (fix go (s : string) : bool :=
     match s with
     | EmptyString => true
     | String c s' => (nat_of_ascii c <? 128)%nat && go s'
     end) s.

Definition lowerByte (c : ascii) : ascii :=
  if byteIn c 65 90 then ascii_of_nat (nat_of_ascii c + 32) else c.

Fixpoint lowerASCII (s : string) : string :=
  match s with
  | EmptyString => EmptyString
  | String c s' => String (lowerByte c) (lowerASCII s')
  end.

Definition ToLower (unicodeLower : string → string) (s : string) : string :=
  if isASCII s then lowerASCII s else unicodeLower s.

(** ** The rest of the prefix registry *)

(** [AllRegisteredPrefixes]: the keys of [prefixToRig].  Go ranges over a map
    in no fixed order; this list is one such order. *)
Definition AllRegisteredPrefixes (reg : Registry) : list string :=
  (map_to_list (prefixToRig reg)).*1.

(** [AgentIdentity.GTRole]. *)
Definition GTRole (a : AgentIdentity) : string := Address a.

(** ** Agent bead identifiers and descriptions ([internal/beads/beads.go]) *)

Module Beads.

Definition AgentBeadIDWithPrefix (prefix rig role name : string) : string :=
  if String.eqb rig "" then prefix ++ "-" ++ role
  else if String.eqb name "" then prefix ++ "-" ++ rig ++ "-" ++ role
  else prefix ++ "-" ++ rig ++ "-" ++ role ++ "-" ++ name.

Definition AgentBeadID (rig role name : string) : string :=
  AgentBeadIDWithPrefix "gt" rig role name.

Definition MayorBeadID : string := "gt-mayor".
Definition DeaconBeadID : string := "gt-deacon".

Definition WitnessBeadIDWithPrefix (prefix rig : string) : string :=
  AgentBeadIDWithPrefix prefix rig "witness" "".
Definition WitnessBeadID (rig : string) : string :=
  WitnessBeadIDWithPrefix "gt" rig.
Definition RefineryBeadIDWithPrefix (prefix rig : string) : string :=
  AgentBeadIDWithPrefix prefix rig "refinery" "".
Definition RefineryBeadID (rig : string) : string :=
  RefineryBeadIDWithPrefix "gt" rig.
Definition CrewBeadIDWithPrefix (prefix rig name : string) : string :=
  AgentBeadIDWithPrefix prefix rig "crew" name.
Definition CrewBeadID (rig name : string) : string :=
  CrewBeadIDWithPrefix "gt" rig name.
Definition PolecatBeadIDWithPrefix (prefix rig name : string) : string :=
  AgentBeadIDWithPrefix prefix rig "polecat" name.
Definition PolecatBeadID (rig name : string) : string :=
  PolecatBeadIDWithPrefix "gt" rig name.

(** [ParseAgentBeadID]: [(rig, role, name, ok)]. *)
Definition ParseAgentBeadID (id : string) : string * string * string * bool :=
  if negb (HasPrefix id "gt-") then ("", "", "", false)
  else
    let rest := TrimPrefix id "gt-" in
    let parts := Split rest "-" in
    match parts with
    | [role] => ("", role, "", true)
    | [rig; role] => (rig, role, "", true)
    | [rig; role; name] => (rig, role, name, true)
    | _ =>
        if (3 <=? List.length parts)%nat then
          match parts with
          | rig :: role :: names => (rig, role, Join names "-", true)
          | _ => ("", "", "", false)
          end
        else ("", "", "", false)
    end.

Definition IsAgentSessionBead (beadID : string) : bool :=
  let '(_, role, _, ok) := ParseAgentBeadID beadID in
  if negb ok then false
  else String.eqb role "mayor" || String.eqb role "deacon"
       || String.eqb role "witness" || String.eqb role "refinery"
       || String.eqb role "crew" || String.eqb role "polecat".

Record AgentFields : Type := mkFields {
  RoleType : string;
  Rig : string;
  AgentState : string;
  HookBead : string;
  RoleBead : string;
  CleanupStatus : string
}.

(** [FormatAgentDescription]; [None] is the [nil] pointer. *)
Definition FormatAgentDescription (title : string) (fields : option AgentFields)
  : string :=
  match fields with
  | None => title
  | Some f =>
      Join
        [title;
         "";
         "role_type: " ++ RoleType f;
         (if negb (String.eqb (Rig f) "") then "rig: " ++ Rig f
          else "rig: null");
         "agent_state: " ++ AgentState f;
         (if negb (String.eqb (HookBead f) "") then "hook_bead: " ++ HookBead f
          else "hook_bead: null");
         (if negb (String.eqb (RoleBead f) "") then "role_bead: " ++ RoleBead f
          else "role_bead: null");
         (if negb (String.eqb (CleanupStatus f) "")
          then "cleanup_status: " ++ CleanupStatus f
          else "cleanup_status: null")]
        (String LF "")
  end.

(** The [switch] of [ParseAgentFields] on the lowered key: the assignment
    to the field that the key names, none for any other key. *)
Definition setField (key value : string) (fields : AgentFields) : AgentFields :=
  if String.eqb key "role_type"
  then mkFields value (Rig fields) (AgentState fields)
         (HookBead fields) (RoleBead fields) (CleanupStatus fields)
  else if String.eqb key "rig"
  then mkFields (RoleType fields) value (AgentState fields)
         (HookBead fields) (RoleBead fields) (CleanupStatus fields)
  else if String.eqb key "agent_state"
  then mkFields (RoleType fields) (Rig fields) value
         (HookBead fields) (RoleBead fields) (CleanupStatus fields)
  else if String.eqb key "hook_bead"
  then mkFields (RoleType fields) (Rig fields) (AgentState fields)
         value (RoleBead fields) (CleanupStatus fields)
  else if String.eqb key "role_bead"
  then mkFields (RoleType fields) (Rig fields) (AgentState fields)
         (HookBead fields) value (CleanupStatus fields)
  else if String.eqb key "cleanup_status"
  then mkFields (RoleType fields) (Rig fields) (AgentState fields)
         (HookBead fields) (RoleBead fields) value
  else fields.

Section ParseAgentFields.

Variable unicodeLower : string → string.

(** One turn of the loop of [ParseAgentFields]; [None] is the panic of an
    out-of-range slice. *)
Definition parseLine (fields : AgentFields) (line : string)
  : option AgentFields :=
  let line := TrimSpace line in
  if String.eqb line "" then Some fields
  else
    let colonIdx := Index line ":" in
    if colonIdx =? -1 then Some fields
    else
      match sliceTo line colonIdx, sliceFrom line (colonIdx + 1) with
      | Some k, Some v =>
          let key := TrimSpace k in
          let value := TrimSpace v in
          let value :=
            if String.eqb value "null" || String.eqb value "" then ""
            else value in
          Some (setField (ToLower unicodeLower key) value fields)
      | _, _ => None
      end.

(** The loop over the lines, from the fields read so far. *)
Fixpoint parseLines (fields : AgentFields) (lines : list string)
  : option AgentFields :=
  match lines with
  | [] => Some fields
  | line :: lines' =>
      match parseLine fields line with
      | Some fields' => parseLines fields' lines'
      | None => None
      end
  end.

(** [ParseAgentFields]. *)
Definition ParseAgentFields (description : string) : option AgentFields :=
  parseLines (mkFields "" "" "" "" "" "") (Split description LF).

End ParseAgentFields.

(** A field value that a description line carries unchanged: no line feed,
    no white space around it, and not the word [null]. *)
Definition cleanValue (v : string) : bool :=
  negb (hasByte LF v) && String.eqb (TrimSpace v) v
  && negb (String.eqb v "null").

Definition cleanFields (f : AgentFields) : bool :=
  cleanValue (RoleType f) && cleanValue (Rig f) && cleanValue (AgentState f)
  && cleanValue (HookBead f) && cleanValue (RoleBead f)
  && cleanValue (CleanupStatus f).

End Beads.

(** ** Patrol receipts (package [witness]) *)

Module Witness.

(** [type PatrolVerdict string]. *)
Definition PatrolVerdict : Type := string.
Definition PatrolVerdictStale : PatrolVerdict := "stale".
Definition PatrolVerdictOrphan : PatrolVerdict := "orphan".

Record PatrolReceiptEvidence : Type := mkEvidence {
  evAgentState : string;
  evHookBead : string;
  evBeadRecovered : bool;
  evError : string
}.

Record PatrolReceipt : Type := mkReceipt {
  rcRig : string;
  rcPolecat : string;
  rcVerdict : PatrolVerdict;
  rcRecommendedAction : string;
  rcEvidence : PatrolReceiptEvidence
}.

(** [ZombieResult] is declared outside the files at hand.  These are the
    fields that [receiptVerdictForZombie] and [BuildPatrolReceipt] read;
    [zError] is the message of the [error], [None] for [nil]. *)
Record ZombieResult : Type := mkZombie {
  zPolecatName : string;
  zAgentState : string;
  zHookBead : string;
  zAction : string;
  zBeadRecovered : bool;
  zError : option string
}.

Definition receiptVerdictForZombie (z : ZombieResult) : PatrolVerdict :=
  if negb (String.eqb (TrimSpace (zHookBead z)) "") then PatrolVerdictStale
  else if String.eqb (zAgentState z) "working"
          || String.eqb (zAgentState z) "running"
          || String.eqb (zAgentState z) "spawning"
  then PatrolVerdictStale
  else PatrolVerdictOrphan.

Definition BuildPatrolReceipt (rigName : string) (z : ZombieResult)
  : PatrolReceipt :=
  let action := TrimSpace (zAction z) in
  let action := if String.eqb action "" then "investigate" else action in
  let receipt :=
    mkReceipt rigName (zPolecatName z) (receiptVerdictForZombie z) action
      (mkEvidence (zAgentState z) (zHookBead z) (zBeadRecovered z) "") in
  match zError z with
  | Some msg =>
      mkReceipt (rcRig receipt) (rcPolecat receipt) (rcVerdict receipt)
        (rcRecommendedAction receipt)
        (mkEvidence (evAgentState (rcEvidence receipt))
           (evHookBead (rcEvidence receipt))
           (evBeadRecovered (rcEvidence receipt)) msg)
  | None => receipt
  end.

(** [BuildPatrolReceipts]: the argument is the [Zombies] slice of the
    result, [None] for a [nil] result; the answer is [None] for the [nil]
    slice. *)
Definition BuildPatrolReceipts (rigName : string)
    (result : option (list ZombieResult)) : option (list PatrolReceipt) :=
  match result with
  | None => None
  | Some zombies =>
      if (List.length zombies =? 0)%nat then None
      else Some (fold_left
                   (fun receipts zombie =>
                      (receipts ++ [BuildPatrolReceipt rigName zombie])%list)
                   zombies [])
  end.

End Witness.

(** ** The wanted board commands (package [cmd]) *)

Module Wl.

(** [escapeSQLString], and [EscapeSQL] of package [wasteland]. *)
Definition escapeSQLString (s : string) : string := ReplaceAll s "'" "''".
Definition EscapeSQL (s : string) : string := ReplaceAll s "'" "''".

(** The loop of [parseCSVLine] from byte [i] on: [line] is what is left of
    the line, [field] the builder and [fields] the fields so far. *)
Fixpoint parseCSVFrom (line : string) (inQuote : bool) (field : string)
    (fields : list string) : list string :=
  match line with
  | EmptyString => (fields ++ [field])%list
  | String ch rest =>
      if Ascii.eqb ch DQUOTE && negb inQuote
      then parseCSVFrom rest true field fields
      else if Ascii.eqb ch DQUOTE && inQuote then
        match rest with
        | String next rest' =>
            if Ascii.eqb next DQUOTE
            then parseCSVFrom rest' inQuote (field ++ String DQUOTE "") fields
            else parseCSVFrom rest false field fields
        | EmptyString => parseCSVFrom rest false field fields
        end
      else if Ascii.eqb ch "," && negb inQuote
      then parseCSVFrom rest inQuote "" (fields ++ [field])%list
      else parseCSVFrom rest inQuote (field ++ String ch "") fields
  end.

Definition parseCSVLine (line : string) : list string :=
  parseCSVFrom line false "" [].

Definition parseCSV (data : string) : list (list string) :=
  fold_left
    (fun rows line =>
       if String.eqb line "" then rows
       else (rows ++ [parseCSVLine line])%list)
    (Split (TrimSpace data) LF) [].

Definition formatPriority (pri : string) : string :=
  if String.eqb pri "0" then "P0"
  else if String.eqb pri "1" then "P1"
  else if String.eqb pri "2" then "P2"
  else if String.eqb pri "3" then "P3"
  else if String.eqb pri "4" then "P4"
  else pri.

End Wl.

(** ** Identities that an encoding carries in full *)

(** A prefix that a rig-level session name can start with. *)
Definition sessionPrefix (P : string) : bool :=
  negb (String.eqb P "") && negb (hasByte "-" P) && negb (String.eqb P "hq").

(** The identities that [SessionName] encodes without loss: a town role
    with nothing but, for the deacon, the name [boot]; a rig role with a
    session prefix that the registry maps to its rig, no name for the
    singletons, and for crew and polecats a name, which for a polecat is
    none of the words that select another role. *)
Definition sessionEncodable (reg : Registry) (a : AgentIdentity) : bool :=
  if String.eqb (idRole a) RoleMayor then
    String.eqb (idRig a) "" && String.eqb (idName a) ""
    && String.eqb (idPrefix a) ""
  else if String.eqb (idRole a) RoleDeacon then
    String.eqb (idRig a) "" && String.eqb (idPrefix a) ""
    && (String.eqb (idName a) "" || String.eqb (idName a) "boot")
  else if String.eqb (idRole a) RoleWitness
          || String.eqb (idRole a) RoleRefinery then
    String.eqb (idName a) "" && sessionPrefix (idPrefix a)
    && String.eqb (idRig a) (RigForPrefix reg (idPrefix a))
  else if String.eqb (idRole a) RoleCrew then
    negb (String.eqb (idName a) "") && sessionPrefix (idPrefix a)
    && String.eqb (idRig a) (RigForPrefix reg (idPrefix a))
  else if String.eqb (idRole a) RolePolecat then
    negb (String.eqb (idName a) "")
    && negb (String.eqb (idName a) "witness")
    && negb (String.eqb (idName a) "refinery")
    && negb (String.eqb (idName a) "boot")
    && negb (HasPrefix (idName a) "crew-")
    && sessionPrefix (idPrefix a)
    && String.eqb (idRig a) (RigForPrefix reg (idPrefix a))
  else false.

(** The identities that [Address] encodes without loss: those an address
    can carry, with an empty rig for a town role, no name for a singleton
    and a name for crew and polecats. *)
Definition addressEncodable (reg : Registry) (a : AgentIdentity) : bool :=
  addressable reg a
  && (if String.eqb (idRole a) RoleMayor || String.eqb (idRole a) RoleDeacon
      then String.eqb (idRig a) ""
      else if String.eqb (idRole a) RoleWitness
              || String.eqb (idRole a) RoleRefinery
      then String.eqb (idName a) ""
      else if String.eqb (idRole a) RoleCrew
              || String.eqb (idRole a) RolePolecat
      then negb (String.eqb (idName a) "")
      else false).

(** Every single quote of [s] is followed, or preceded, by its double: read
    from the left, the quotes come in pairs.  This is what keeps a string
    inside a single-quoted SQL literal. *)
Fixpoint pairedQuotes (s : string) : bool :=
  match s with
  | EmptyString => true
  | String c r =>
      if Ascii.eqb c "'" then
        match r with
        | String c' r' => Ascii.eqb c' "'" && pairedQuotes r'
        | EmptyString => false
        end
      else pairedQuotes r
  end.

(** * Properties *)

(** ** Strings *)

(** Case analysis on every condition of the goal. *)
Ltac destruct_ifs :=
  repeat match goal with
         | |- context [if ?b then _ else _] => destruct b
         end.

Section StringFacts.

Lemma length_app (a b : string) :
  String.length (a ++ b) = (String.length a + String.length b)%nat.
Proof. induction a as [|c a IH]; simpl; [reflexivity|by rewrite IH]. Qed.

Lemma app_nil_r (a : string) : a ++ "" = a.
Proof. induction a as [|c a IH]; simpl; [reflexivity|by rewrite IH]. Qed.

Lemma app_assoc (a b c : string) : (a ++ b) ++ c = a ++ b ++ c.
Proof. induction a as [|x a IH]; simpl; [reflexivity|by rewrite IH]. Qed.

Lemma take_app (a b : string) : take (String.length a) (a ++ b) = a.
Proof. induction a as [|c a IH]; simpl; [by destruct b|by rewrite IH]. Qed.

Lemma drop_app (a b : string) : drop (String.length a) (a ++ b) = b.
Proof. induction a as [|c a IH]; simpl; [reflexivity|exact IH]. Qed.

Lemma take_drop (n : nat) (s : string) : take n s ++ drop n s = s.
Proof.
  revert s. induction n as [|n IH]; intros [|c s]; simpl; try reflexivity.
  by rewrite IH.
Qed.

Lemma length_take (n : nat) (s : string) :
  (n ≤ String.length s)%nat → String.length (take n s) = n.
Proof.
  revert s. induction n as [|n IH]; intros [|c s]; simpl; intros Hn;
    try reflexivity; try lia.
  rewrite IH; [reflexivity|lia].
Qed.

Lemma length_drop (n : nat) (s : string) :
  String.length (drop n s) = (String.length s - n)%nat.
Proof.
  revert s. induction n as [|n IH]; intros [|c s]; simpl; try reflexivity.
  apply IH.
Qed.

Lemma take_all (n : nat) (s : string) :
  (String.length s ≤ n)%nat → take n s = s.
Proof.
  revert s. induction n as [|n IH]; intros [|c s]; simpl; intros Hn;
    try reflexivity; try lia.
  rewrite IH; [reflexivity|lia].
Qed.

Lemma drop_drop (n m : nat) (s : string) : drop n (drop m s) = drop (m + n) s.
Proof.
  revert s. induction m as [|m IH]; intros s; simpl; [reflexivity|].
  destruct s as [|c s]; [by destruct n|]. apply IH.
Qed.

Lemma length_zero (s : string) : String.length s = 0%nat → s = "".
Proof. destruct s; [reflexivity|discriminate]. Qed.

Lemma HasPrefix_app (p r : string) : HasPrefix (p ++ r) p = true.
Proof.
  induction p as [|c p IH]; simpl; [reflexivity|].
  by rewrite Ascii.eqb_refl.
Qed.

Lemma HasPrefix_inv (s p : string) :
  HasPrefix s p = true → s = p ++ drop (String.length p) s.
Proof.
  revert s. induction p as [|c p IH]; intros s Hs; simpl; [reflexivity|].
  destruct s as [|c' s]; simpl in Hs; [discriminate|].
  destruct (Ascii.eqb_spec c' c) as [->|]; [|discriminate].
  simpl. f_equal. by apply IH.
Qed.

Lemma hasByte_app (c : ascii) (a b : string) :
  hasByte c (a ++ b) = hasByte c a || hasByte c b.
Proof.
  induction a as [|x a IH]; simpl; [reflexivity|].
  by rewrite IH, orb_assoc.
Qed.

(** [Index] at a one-byte separator. *)
Lemma Index_byte_cons (c x : ascii) (s : string) :
  Index (String x s) (String c "")
  = if Ascii.eqb x c then 0
    else if Index s (String c "") <? 0 then -1 else Index s (String c "") + 1.
Proof. simpl. destruct (Ascii.eqb x c); reflexivity. Qed.

Lemma Index_byte_range (c : ascii) (s : string) :
  -1 ≤ Index s (String c "") < len s ∨ (s = "" ∧ Index s (String c "") = -1).
Proof.
  unfold len. induction s as [|x s IH].
  - right. split; reflexivity.
  - left. rewrite Index_byte_cons. simpl String.length.
    destruct (Ascii.eqb x c); [lia|].
    destruct (Z.ltb_spec (Index s (String c "")) 0); lia.
Qed.

Lemma Index_byte_absent (c : ascii) (s : string) :
  hasByte c s = false → Index s (String c "") = -1.
Proof.
  induction s as [|x s IH]; [reflexivity|].
  simpl hasByte. intros [Hx Hs]%orb_false_iff.
  rewrite Index_byte_cons, Hx, (IH Hs). reflexivity.
Qed.

Lemma Index_byte_first (c : ascii) (a b : string) :
  hasByte c a = false →
  Index (a ++ String c b) (String c "") = len a.
Proof.
  unfold len. induction a as [|x a IH]; intros Ha.
  - simpl. by rewrite Ascii.eqb_refl.
  - simpl hasByte in Ha. apply orb_false_iff in Ha as [Hx Ha].
    change (String x a ++ String c b) with (String x (a ++ String c b)).
    rewrite Index_byte_cons, Hx, (IH Ha). simpl String.length.
    destruct (Z.ltb_spec (Z.of_nat (String.length a)) 0); lia.
Qed.

Lemma Index_byte_found (c : ascii) (s : string) :
  0 ≤ Index s (String c "") →
  let i := Z.to_nat (Index s (String c "")) in
  s = take i s ++ String c (drop (S i) s) ∧ hasByte c (take i s) = false.
Proof.
  induction s as [|x s IH]; [simpl; lia|].
  rewrite Index_byte_cons.
  destruct (Ascii.eqb_spec x c) as [->|Hx].
  - intros _. simpl. split; reflexivity.
  - destruct (Z.ltb_spec (Index s (String c "")) 0) as [Hneg|Hpos]; [lia|].
    intros _. specialize (IH Hpos). cbv zeta in IH. destruct IH as [Hs Ha].
    cbv zeta. rewrite Z2Nat.inj_add, Nat.add_1_r by lia. simpl.
    split; [f_equal; exact Hs|].
    rewrite Ha. by destruct (Ascii.eqb_spec x c).
Qed.

(** [Split] at a byte the pieces do not contain. *)
Lemma Split_nonempty (s : string) (c : ascii) : Split s c ≠ [].
Proof.
  destruct s as [|x s]; simpl; [discriminate|].
  destruct (Ascii.eqb x c); [discriminate|].
  destruct (Split s c); discriminate.
Qed.

Lemma Split_absent (c : ascii) (s : string) :
  hasByte c s = false → Split s c = [s].
Proof.
  induction s as [|x s IH]; [reflexivity|].
  simpl. intros [Hx Hs]%orb_false_iff. by rewrite Hx, (IH Hs).
Qed.

Lemma Split_first (c : ascii) (a b : string) :
  hasByte c a = false →
  Split (a ++ String c b) c = a :: Split b c.
Proof.
  induction a as [|x a IH]; intros Ha.
  - simpl. by rewrite Ascii.eqb_refl.
  - simpl in Ha. apply orb_false_iff in Ha as [Hx Ha].
    simpl. by rewrite Hx, (IH Ha).
Qed.

Lemma hasByte_Split (c : ascii) (s : string) :
  hasByte c s = true → (1 < List.length (Split s c))%nat.
Proof.
  induction s as [|x s IH]; [discriminate|].
  simpl. destruct (Ascii.eqb x c); simpl.
  - intros _. pose proof (Split_nonempty s c).
    destruct (Split s c); [congruence|simpl; lia].
  - intros Hs. specialize (IH Hs).
    destruct (Split s c) as [|p ps]; simpl in *; lia.
Qed.

(** *** [TrimSpace] *)

Lemma spaceWidth_bound (s : string) : (spaceWidth s ≤ String.length s)%nat.
Proof.
  destruct s as [|c0 [|c1 [|c2 s]]]; simpl;
    destruct_ifs; lia.
Qed.

(** A white-space character at the head of [a] is still there when [a] is
    extended to the right. *)
Lemma spaceWidth_app (a b : string) :
  spaceWidth a ≠ 0%nat → spaceWidth (a ++ b) = spaceWidth a.
Proof.
  destruct a as [|c0 [|c1 [|c2 a]]]; simpl;
    destruct_ifs; try congruence; try reflexivity.
Qed.

Lemma trimLeftFuel_fixed (fuel : nat) (s : string) :
  spaceWidth s = 0%nat → trimLeftFuel fuel s = s.
Proof. intros Hs. destruct fuel; simpl; [reflexivity|by rewrite Hs]. Qed.

Lemma trimLeftFuel_done (fuel : nat) :
  ∀ s : string,
    (String.length s ≤ fuel)%nat → spaceWidth (trimLeftFuel fuel s) = 0%nat.
Proof.
  induction fuel as [|fuel IH]; intros s Hlen.
  - simpl. pose proof (spaceWidth_bound s). lia.
  - cbn [trimLeftFuel]. destruct (spaceWidth s) as [|w] eqn:Hw; [exact Hw|].
    apply IH. rewrite length_drop. lia.
Qed.

Lemma TrimLeftSpace_done (s : string) : spaceWidth (TrimLeftSpace s) = 0%nat.
Proof. by apply trimLeftFuel_done. Qed.

Lemma lastSpaceWidth_bound (s : string) :
  (lastSpaceWidth s ≤ String.length s)%nat.
Proof.
  unfold lastSpaceWidth.
  repeat match goal with
         | |- context [if ?b && ?c then _ else _] =>
             destruct (Nat.leb_spec0 1 (String.length s));
             destruct (Nat.leb_spec0 2 (String.length s));
             destruct (Nat.leb_spec0 3 (String.length s)); simpl
         | |- context [if ?b then _ else _] => destruct b
         end; lia.
Qed.

Lemma trimRightFuel_fixed (fuel : nat) (s : string) :
  lastSpaceWidth s = 0%nat → trimRightFuel fuel s = s.
Proof. intros Hs. destruct fuel; simpl; [reflexivity|by rewrite Hs]. Qed.

Lemma trimRightFuel_done (fuel : nat) :
  ∀ s : string,
    (String.length s ≤ fuel)%nat →
    lastSpaceWidth (trimRightFuel fuel s) = 0%nat.
Proof.
  induction fuel as [|fuel IH]; intros s Hlen.
  - simpl. pose proof (lastSpaceWidth_bound s). lia.
  - cbn [trimRightFuel].
    destruct (lastSpaceWidth s) as [|w] eqn:Hw; [exact Hw|].
    apply IH. pose proof (lastSpaceWidth_bound s).
    rewrite length_take; lia.
Qed.

Lemma trimRightFuel_prefix (fuel : nat) :
  ∀ s : string, ∃ rest : string, s = trimRightFuel fuel s ++ rest.
Proof.
  induction fuel as [|fuel IH]; intros s.
  - exists "". by rewrite app_nil_r.
  - cbn [trimRightFuel]. destruct (lastSpaceWidth s) as [|w].
    + exists "". by rewrite app_nil_r.
    + destruct (IH (take (String.length s - S w) s)) as [rest Hrest].
      exists (rest ++ drop (String.length s - S w) s).
      rewrite <- app_assoc, <- Hrest. by rewrite take_drop.
Qed.

Lemma TrimSpace_no_space (s : string) :
  spaceWidth (TrimSpace s) = 0%nat ∧ lastSpaceWidth (TrimSpace s) = 0%nat.
Proof.
  unfold TrimSpace, TrimRightSpace. split.
  - destruct (trimRightFuel_prefix (String.length (TrimLeftSpace s))
                (TrimLeftSpace s)) as [rest Hrest].
    destruct (Nat.eq_dec (spaceWidth (trimRightFuel
                (String.length (TrimLeftSpace s)) (TrimLeftSpace s))) 0%nat)
      as [Hz|Hnz]; [exact Hz|].
    pose proof (spaceWidth_app _ rest Hnz) as Happ.
    rewrite <- Hrest, TrimLeftSpace_done in Happ. congruence.
  - by apply trimRightFuel_done.
Qed.

Lemma TrimSpace_fixed (s : string) :
  spaceWidth s = 0%nat → lastSpaceWidth s = 0%nat → TrimSpace s = s.
Proof.
  intros Hl Hr. unfold TrimSpace, TrimLeftSpace, TrimRightSpace.
  rewrite (trimLeftFuel_fixed _ _ Hl). by apply trimRightFuel_fixed.
Qed.

Lemma TrimSpace_idempotent (s : string) : TrimSpace (TrimSpace s) = TrimSpace s.
Proof. apply TrimSpace_fixed; apply TrimSpace_no_space. Qed.

End StringFacts.

Example TrimSpace_ex1 : TrimSpace "  gastown/crew/max
" = "gastown/crew/max".
Proof. reflexivity. Qed.

Example Split_ex1 : Split "gastown/crew/max" "/" = ["gastown"; "crew"; "max"].
Proof. reflexivity. Qed.

Example Split_ex2 : Split "/a/" "/" = [""; "a"; ""].
Proof. reflexivity. Qed.

Example Index_ex1 : Index "gt-crew-max" "-" = 2.
Proof. reflexivity. Qed.

Example Index_ex2 : Index "gastown" "-" = -1.
Proof. reflexivity. Qed.

(** ** The session-name decoder *)

Section SessionNameFacts.

Context (reg : Registry).

Lemma len_app (a b : string) : len (a ++ b) = len a + len b.
Proof. unfold len. rewrite length_app. lia. Qed.

Lemma len_pos (s : string) : s ≠ "" → 0 < len s.
Proof. unfold len. destruct s; [congruence|simpl; lia]. Qed.

Lemma sliceTo_nat (s : string) (n : nat) :
  (n ≤ String.length s)%nat → sliceTo s (Z.of_nat n) = Some (take n s).
Proof.
  intros Hn. unfold sliceTo, len. rewrite Nat2Z.id.
  destruct (Z.leb_spec 0 (Z.of_nat n)); [|lia].
  destruct (Z.leb_spec (Z.of_nat n) (Z.of_nat (String.length s)));
    [reflexivity|lia].
Qed.

Lemma sliceFrom_nat (s : string) (n : nat) :
  (n ≤ String.length s)%nat → sliceFrom s (Z.of_nat n) = Some (drop n s).
Proof.
  intros Hn. unfold sliceFrom, len. rewrite Nat2Z.id.
  destruct (Z.leb_spec 0 (Z.of_nat n)); [|lia].
  destruct (Z.leb_spec (Z.of_nat n) (Z.of_nat (String.length s)));
    [reflexivity|lia].
Qed.

Lemma sliceTo_app (a b : string) : sliceTo (a ++ b) (len a) = Some a.
Proof.
  unfold len. rewrite sliceTo_nat by (rewrite length_app; lia).
  by rewrite take_app.
Qed.

Lemma sliceFrom_app (a b : string) : sliceFrom (a ++ b) (len a) = Some b.
Proof.
  unfold len. rewrite sliceFrom_nat by (rewrite length_app; lia).
  by rewrite drop_app.
Qed.

Lemma sliceFrom_HasPrefix (s p : string) :
  HasPrefix s p = true → sliceFrom s (len p) = Some (drop (String.length p) s).
Proof.
  intros Hp%HasPrefix_inv. rewrite Hp at 1. rewrite sliceFrom_app.
  by rewrite Hp at 2; rewrite drop_app.
Qed.

(** A name whose prefix has no hyphen starts with ["hq-"] only if the
    prefix is ["hq"]. *)
Lemma HasPrefix_HQ (P rest : string) :
  hasByte "-" P = false →
  HasPrefix (P ++ "-" ++ rest) HQPrefix = true → P = "hq".
Proof.
  destruct P as [|a [|b [|c P]]]; simpl.
  - intros _ [=].
  - intros _. destruct (Ascii.eqb a "h"); intros [=].
  - intros _. destruct (Ascii.eqb_spec a "h") as [->|]; [|intros [=]].
    destruct (Ascii.eqb_spec b "q") as [->|]; [reflexivity|intros [=]].
  - intros Hno Hhq.
    destruct (Ascii.eqb a "h"); [|discriminate Hhq].
    destruct (Ascii.eqb b "q"); [|discriminate Hhq].
    destruct (Ascii.eqb c "-"); [|discriminate Hhq].
    rewrite !orb_true_r in Hno. discriminate Hno.
Qed.

Lemma HasPrefix_HQ_rig (P rest : string) :
  hasByte "-" P = false → P ≠ "hq" →
  HasPrefix (P ++ "-" ++ rest) HQPrefix = false.
Proof.
  intros HP Hne. destruct (HasPrefix (P ++ "-" ++ rest) HQPrefix) eqn:Hhq;
    [|reflexivity].
  apply HasPrefix_HQ in Hhq; congruence.
Qed.

(** The decoder on a well-formed rig-level name. *)
Lemma ParseSessionName_rig (P rest : string) :
  hasByte "-" P = false → P ≠ "" → P ≠ "hq" → rest ≠ "" →
  ParseSessionName reg (P ++ "-" ++ rest)
  = rigLevel reg (P ++ "-" ++ rest) P rest.
Proof.
  intros HP Hne Hhq Hrest.
  pose proof (HasPrefix_HQ_rig P rest HP Hhq) as Hnohq.
  pose proof (Index_byte_first "-" P rest HP) as Hidx.
  pose proof (sliceTo_app P ("-" ++ rest)) as Hto.
  pose proof (sliceFrom_app (P ++ "-") rest) as Hfrom.
  rewrite app_assoc, len_app in Hfrom. change (len "-") with 1 in Hfrom.
  assert (Hlen : len (P ++ "-" ++ rest) = len P + 1 + len rest).
  { rewrite !len_app. change (len "-") with 1. lia. }
  pose proof (len_pos P Hne). pose proof (len_pos rest Hrest).
  change (String "-" rest) with ("-" ++ rest) in Hidx.
  change (String "-" "") with "-" in Hidx.
  remember (P ++ "-" ++ rest) as s eqn:Hs.
  unfold ParseSessionName. rewrite Hnohq, Hidx, Hto, Hfrom.
  destruct (Z.leb_spec (len P) 0); [lia|].
  destruct (Z.eqb_spec (len P) (len s - 1)); [lia|].
  cbn [orb slicing]. unfold rigLevel.
  destruct (HasPrefix rest "crew-") eqn:Hcrew; [|reflexivity].
  pose proof (sliceFrom_HasPrefix rest "crew-" Hcrew) as Hname.
  change (len "crew-") with 5 in Hname. by rewrite Hname.
Qed.

(** The shape of a name that passes the separator check. *)
Lemma rig_form (s : string) :
  HasPrefix s HQPrefix = false →
  (Index s "-" <=? 0) || (Index s "-" =? len s - 1) = false →
  ∃ P rest : string,
    s = P ++ "-" ++ rest
    ∧ hasByte "-" P = false ∧ P ≠ "" ∧ P ≠ "hq" ∧ rest ≠ "".
Proof.
  intros Hhq [Hpos Hend]%orb_false_iff.
  apply Z.leb_gt in Hpos. apply Z.eqb_neq in Hend.
  destruct (Index_byte_found "-" s) as [Hs HP]; [lia|].
  set (i := Z.to_nat (Index s "-")) in *.
  exists (take i s), (drop (S i) s).
  assert (Hi : (0 < i)%nat) by (unfold i; lia).
  destruct (Index_byte_range "-" s) as [Hrange|[-> _]]; [|simpl in Hpos; lia].
  assert (Hlt : (S i < String.length s)%nat) by (unfold len, i in *; lia).
  split; [exact Hs|]. split; [exact HP|]. split; [|split].
  - intros Hempty. apply (f_equal String.length) in Hempty.
    rewrite length_take in Hempty by lia. simpl in Hempty. lia.
  - intros Heq. rewrite Hs, Heq in Hhq. discriminate.
  - intros Hempty. apply (f_equal String.length) in Hempty.
    rewrite length_drop in Hempty. simpl in Hempty. lia.
Qed.

(** The three ways through [ParseSessionName]. *)
Lemma ParseSessionName_cases (s : string) :
  (HasPrefix s HQPrefix = true
   ∧ (ParseSessionName reg s = Err (UnknownHQRole s)
      ∨ (s = "hq-mayor"
         ∧ ParseSessionName reg s = Ok (mkIdentity RoleMayor "" "" ""))
      ∨ (s = "hq-deacon"
         ∧ ParseSessionName reg s = Ok (mkIdentity RoleDeacon "" "" ""))
      ∨ (s = "hq-boot"
         ∧ ParseSessionName reg s = Ok (mkIdentity RoleDeacon "" "boot" ""))
      ∨ (s = "hq-overseer"
         ∧ ParseSessionName reg s
           = Ok (mkIdentity RoleMayor "" "overseer" ""))))
  ∨ (HasPrefix s HQPrefix = false
     ∧ ParseSessionName reg s = Err (NoPrefixRoleSeparator s))
  ∨ (∃ P rest : string,
       s = P ++ "-" ++ rest
       ∧ hasByte "-" P = false ∧ P ≠ "" ∧ P ≠ "hq" ∧ rest ≠ ""
       ∧ ParseSessionName reg s = rigLevel reg s P rest).
Proof.
  destruct (HasPrefix s HQPrefix) eqn:Hhq.
  - left. split; [reflexivity|]. unfold ParseSessionName. rewrite Hhq.
    unfold TrimPrefix. rewrite Hhq.
    pose proof (HasPrefix_inv s HQPrefix Hhq) as Hs.
    destruct (String.eqb_spec (drop (String.length HQPrefix) s) "mayor")
      as [Hm|_]; [rewrite Hm in Hs; auto|].
    destruct (String.eqb_spec (drop (String.length HQPrefix) s) "deacon")
      as [Hm|_]; [rewrite Hm in Hs; auto|].
    destruct (String.eqb_spec (drop (String.length HQPrefix) s) "boot")
      as [Hm|_]; [rewrite Hm in Hs; auto 6|].
    destruct (String.eqb_spec (drop (String.length HQPrefix) s) "overseer")
      as [Hm|_]; [rewrite Hm in Hs; auto 6|].
    auto.
  - right.
    destruct ((Index s "-" <=? 0) || (Index s "-" =? len s - 1)) eqn:Hidx.
    + left. split; [reflexivity|]. unfold ParseSessionName.
      by rewrite Hhq, Hidx.
    + right. destruct (rig_form s Hhq Hidx) as (P & rest & Hs & HP & H1 & H2 & H3).
      exists P, rest. repeat (split; [assumption|]).
      rewrite Hs. by apply ParseSessionName_rig.
Qed.

End SessionNameFacts.

(** ** Merge slot *)

Section MergeSlotFacts.
Import MergeSlot.

Lemma slotState_Free (cur : string) : slotState cur = Free ↔ cur = "".
Proof.
  unfold slotState. destruct (String.eqb_spec cur ""); split; congruence.
Qed.

Lemma slotState_Held (cur h : string) :
  slotState cur = Held h ↔ cur = h ∧ h ≠ "".
Proof.
  unfold slotState. destruct (String.eqb_spec cur "") as [->|Hne]; split.
  - discriminate.
  - intros [<- Hh]. congruence.
  - intros [= <-]. auto.
  - intros [-> _]. reflexivity.
Qed.

Lemma acquire_free (holder : string) (addWaiter : bool) :
  mergeSlotAcquire "" holder addWaiter
  = (holder, mkStatus "merge-slot" true holder).
Proof. reflexivity. Qed.

Lemma acquire_held (cur holder : string) (addWaiter : bool) :
  cur ≠ "" →
  mergeSlotAcquire cur holder addWaiter
  = (cur, mkStatus "merge-slot" false cur).
Proof.
  intros Hne. unfold mergeSlotAcquire.
  destruct (String.eqb_spec cur ""); simpl; congruence.
Qed.

Lemma release_match (cur : string) : mergeSlotRelease cur cur = ("", None).
Proof. unfold mergeSlotRelease. rewrite String.eqb_refl. reflexivity. Qed.

Lemma release_mismatch (cur holder : string) :
  cur ≠ holder →
  mergeSlotRelease cur holder = (cur, Some (HolderMismatch cur holder)).
Proof.
  intros Hne. unfold mergeSlotRelease.
  destruct (String.eqb_spec cur holder); simpl; congruence.
Qed.

(** One call keeps the live grants equal to the holders of the state. *)
Lemma exec_grants (cur : string) (live : list string) (c : Call) :
  tokenOf c ≠ "" →
  live = holdersOf (slotState cur) →
  grants live c (snd (exec cur c)) = holdersOf (slotState (fst (exec cur c))).
Proof.
  intros Htok ->. destruct c as [holder aw|holder]; simpl in Htok.
  - destruct (String.eqb_spec cur "") as [->|Hne].
    + simpl. unfold slotState.
      destruct (String.eqb_spec holder ""); [congruence|reflexivity].
    + simpl. rewrite (acquire_held _ _ _ Hne). reflexivity.
  - destruct (String.eqb_spec cur holder) as [->|Hne].
    + simpl. rewrite release_match. simpl.
      unfold slotState at 1. destruct (String.eqb_spec holder ""); [congruence|].
      simpl. rewrite String.eqb_refl. reflexivity.
    + simpl. rewrite (release_mismatch _ _ Hne). reflexivity.
Qed.

Lemma run_grants (calls : list Call) :
  ∀ (cur : string) (live : list string),
    Forall (fun c => tokenOf c ≠ "") calls →
    live = holdersOf (slotState cur) →
    snd (fst (run cur live calls))
    = holdersOf (slotState (fst (fst (run cur live calls)))).
Proof.
  induction calls as [|c calls IH]; intros cur live Hall Hlive.
  - exact Hlive.
  - inversion Hall as [|? ? Hc Hrest]; subst.
    simpl. pose proof (exec_grants cur _ c Hc eq_refl) as Hstep.
    destruct (exec cur c) as [next r]. simpl in Hstep.
    specialize (IH next _ Hrest Hstep).
    destruct (run next _ calls) as [[final live'] replies]. exact IH.
Qed.

End MergeSlotFacts.

Section MergeSlotClaims.
Import MergeSlot.

(** C2, as stated, fails at the empty holder token, which is how the slot
    records that it is free.  An [Acquire] with it on the free slot answers
    [available = true] and leaves the slot [Free], not [Held]; a second
    holder is then granted the slot as well, and two grants are live. *)
Lemma acquire_empty_token_not_held :
  snd (mergeSlotAcquire "" "" false) = mkStatus "merge-slot" true ""
  ∧ slotState (fst (mergeSlotAcquire "" "" false)) = Free
  ∧ slotState (fst (mergeSlotAcquire "" "" false)) ≠ Held ""
  ∧ run "" [] [Acquire "" false; Acquire "b" false]
    = ("b", ["b"; ""],
       [AcquireReply (mkStatus "merge-slot" true "");
        AcquireReply (mkStatus "merge-slot" true "b")])
  ∧ ¬ (List.length (snd (fst (run "" [] [Acquire "" false; Acquire "b" false])))
       ≤ 1)%nat.
Proof.
  split; [reflexivity|]. split; [reflexivity|]. split; [discriminate|].
  split; [reflexivity|]. simpl. lia.
Qed.

(** C2, amended.  For non-empty holder tokens: an [Acquire] by a holder on
    a [Free] slot makes the slot [Held] by that holder and answers
    [available = true] with that holder; an [Acquire] on a slot that is
    [Held] (in particular by a different holder) answers
    [available = false] with the current holder and leaves the slot as it
    was; and after every sequence of calls from the free slot the live
    grants are exactly the holders of the slot state, one or none. *)
Theorem acquire_free_or_held
    (cur holder : string) (addWaiter : bool) (calls : list Call) :
  holder ≠ "" →
  Forall (fun c => tokenOf c ≠ "") calls →
  (slotState cur = Free →
     slotState (fst (mergeSlotAcquire cur holder addWaiter)) = Held holder
     ∧ snd (mergeSlotAcquire cur holder addWaiter)
       = mkStatus "merge-slot" true holder)
  ∧ (∀ other : string,
       slotState cur = Held other →
       mergeSlotAcquire cur holder addWaiter
       = (cur, mkStatus "merge-slot" false other))
  ∧ (snd (fst (run "" [] calls))
       = holdersOf (slotState (fst (fst (run "" [] calls))))
     ∧ (List.length (snd (fst (run "" [] calls))) ≤ 1)%nat).
Proof.
  intros Hholder Hcalls. split; [|split].
  - intros Hfree%slotState_Free. subst cur. rewrite acquire_free. simpl.
    split; [|reflexivity]. apply slotState_Held. auto.
  - intros other [-> Hother]%slotState_Held.
    apply acquire_held. exact Hother.
  - pose proof (run_grants calls "" [] Hcalls eq_refl) as Hinv.
    split; [exact Hinv|]. rewrite Hinv.
    destruct (slotState _); simpl; lia.
Qed.

Lemma acquire_free_or_held_witness :
  "gastown/refinery" ≠ ""
  ∧ slotState (fst (mergeSlotAcquire "" "gastown/refinery" true))
    = Held "gastown/refinery"
  ∧ snd (fst (run "" [] [Acquire "a" false; Acquire "b" true; Release "a"]))
    = [].
Proof.
  assert (Htok : "gastown/refinery" ≠ "") by discriminate.
  assert (Hcalls : Forall (fun c => tokenOf c ≠ "")
                     [Acquire "a" false; Acquire "b" true; Release "a"])
    by (repeat constructor; discriminate).
  destruct (acquire_free_or_held "" "gastown/refinery" true _ Htok Hcalls)
    as (Hfree & _ & Hinv & _).
  split; [exact Htok|]. split.
  - apply Hfree. reflexivity.
  - rewrite Hinv. reflexivity.
Defined.

(** C3.  On a slot [Held] by [h], a [Release] that presents another token
    fails with the holder-mismatch error and leaves the slot [Held] by
    [h]; a [Release] that presents [h] succeeds and frees the slot. *)
Theorem release_needs_holder (cur h h' : string) :
  slotState cur = Held h →
  (h' ≠ h →
     snd (mergeSlotRelease cur h') = Some (HolderMismatch h h')
     ∧ slotState (fst (mergeSlotRelease cur h')) = Held h)
  ∧ snd (mergeSlotRelease cur h) = None
  ∧ slotState (fst (mergeSlotRelease cur h)) = Free.
Proof.
  intros Hheld. pose proof Hheld as [-> Hne]%slotState_Held.
  split; [|split].
  - intros Hdiff. rewrite release_mismatch by congruence. simpl. auto.
  - rewrite release_match. reflexivity.
  - rewrite release_match. reflexivity.
Qed.

Lemma release_needs_holder_witness :
  slotState "polecat-a" = Held "polecat-a"
  ∧ snd (mergeSlotRelease "polecat-a" "polecat-b")
    = Some (HolderMismatch "polecat-a" "polecat-b")
  ∧ slotState (fst (mergeSlotRelease "polecat-a" "polecat-a")) = Free.
Proof.
  assert (Hheld : slotState "polecat-a" = Held "polecat-a") by reflexivity.
  destruct (release_needs_holder "polecat-a" "polecat-a" "polecat-b" Hheld)
    as (Hmis & _ & Hfree).
  split; [exact Hheld|]. split; [|exact Hfree].
  apply Hmis. discriminate.
Defined.

(** C6, as stated, fails when one of the two different holders presents
    the empty token: admitted first, its [Acquire] is granted and leaves the
    slot free, so the other holder's [Acquire] is granted too, and both
    calls succeed. *)
Lemma concurrent_acquire_empty_token :
  "" ≠ "b"
  ∧ In [Acquire "" false; Acquire "b" false]
      (schedules (Acquire "" false) (Acquire "b" false))
  ∧ run "" [] [Acquire "" false; Acquire "b" false]
    = ("b", ["b"; ""],
       [AcquireReply (mkStatus "merge-slot" true "");
        AcquireReply (mkStatus "merge-slot" true "b")])
  ∧ ¬ ∃ winner : string,
        run "" [] [Acquire "" false; Acquire "b" false]
        = (winner, [winner],
           [AcquireReply (mkStatus "merge-slot" true winner);
            AcquireReply (mkStatus "merge-slot" false winner)]).
Proof.
  split; [discriminate|]. split; [simpl; auto|]. split; [reflexivity|].
  intros [winner Hrun]. discriminate Hrun.
Qed.

(** C6, amended.  Two concurrent [Acquire] calls on the free slot by two
    different holders with non-empty tokens are admitted by the mutex in one
    order or the other.  In both orders exactly one call is granted, the
    other is answered [available = false] with the granted holder; the
    granted holder's [Release] then succeeds, and a [Release] by any other
    token fails with holder mismatch and leaves the slot held. *)
Theorem concurrent_acquire_single_winner
    (h1 h2 : string) (w1 w2 : bool) (calls : list Call) :
  h1 ≠ "" → h2 ≠ "" → h1 ≠ h2 →
  In calls (schedules (Acquire h1 w1) (Acquire h2 w2)) →
  ∃ winner : string,
    (winner = h1 ∨ winner = h2)
    ∧ run "" [] calls
      = (winner, [winner],
         [AcquireReply (mkStatus "merge-slot" true winner);
          AcquireReply (mkStatus "merge-slot" false winner)])
    ∧ slotState winner = Held winner
    ∧ mergeSlotRelease winner winner = ("", None)
    ∧ ∀ third : string,
        third ≠ winner →
        mergeSlotRelease winner third
        = (winner, Some (HolderMismatch winner third)).
Proof.
  intros H1 H2 Hdiff Hin.
  assert (Hrun : ∀ a b wa wb, a ≠ "" →
            run "" [] [Acquire a wa; Acquire b wb]
            = (a, [a], [AcquireReply (mkStatus "merge-slot" true a);
                        AcquireReply (mkStatus "merge-slot" false a)])).
  { intros a b wa wb Ha. simpl.
    rewrite (acquire_held a b wb Ha). reflexivity. }
  assert (Hrest : ∀ a, a ≠ "" →
            slotState a = Held a
            ∧ mergeSlotRelease a a = ("", None)
            ∧ ∀ third, third ≠ a →
                mergeSlotRelease a third = (a, Some (HolderMismatch a third))).
  { intros a Ha. split; [apply slotState_Held; auto|].
    split; [apply release_match|].
    intros third Hthird. apply release_mismatch. congruence. }
  destruct Hin as [<-|[<-|[]]].
  - exists h1. split; [auto|]. split; [apply Hrun; exact H1|]. auto.
  - exists h2. split; [auto|]. split; [apply Hrun; exact H2|]. auto.
Qed.

Lemma concurrent_acquire_single_winner_witness :
  ∃ winner : string,
    (winner = "refinery-a" ∨ winner = "refinery-b")
    ∧ run "" [] [Acquire "refinery-b" false; Acquire "refinery-a" false]
      = (winner, [winner],
         [AcquireReply (mkStatus "merge-slot" true winner);
          AcquireReply (mkStatus "merge-slot" false winner)]).
Proof.
  destruct (concurrent_acquire_single_winner
              "refinery-a" "refinery-b" false false
              [Acquire "refinery-b" false; Acquire "refinery-a" false])
    as (winner & Hwho & Hrun & _).
  - discriminate.
  - discriminate.
  - discriminate.
  - simpl. auto.
  - exists winner. auto.
Defined.

End MergeSlotClaims.

(** ** Prefix registry *)

Section RegistryFacts.

Lemma RigForPrefix_register (reg : Registry) (prefix rigName : string) :
  RigForPrefix (RegisterPrefix reg prefix rigName) prefix = rigName.
Proof. unfold RigForPrefix, mapGet. simpl. by rewrite lookup_insert_eq. Qed.

Lemma PrefixForRig_register (reg : Registry) (prefix rigName : string) :
  PrefixForRig (RegisterPrefix reg prefix rigName) rigName = prefix.
Proof. unfold PrefixForRig, mapGet. simpl. by rewrite lookup_insert_eq. Qed.

Lemma freshFor_spec (reg : Registry) (prefix rigName : string) :
  freshFor reg prefix rigName = true ↔
  (prefixToRig reg !! prefix = None ∨ prefixToRig reg !! prefix = Some rigName)
  ∧ (rigToPrefix reg !! rigName = None
     ∨ rigToPrefix reg !! rigName = Some prefix).
Proof.
  unfold freshFor. rewrite andb_true_iff, !bool_decide_eq_true. tauto.
Qed.

Lemma Bijective_empty : Bijective emptyRegistry.
Proof. intros p r. simpl. rewrite !lookup_empty. split; discriminate. Qed.

(** A fresh registration keeps the two directions in agreement. *)
Lemma Bijective_register (reg : Registry) (prefix rigName : string) :
  Bijective reg →
  freshFor reg prefix rigName = true →
  Bijective (RegisterPrefix reg prefix rigName).
Proof.
  intros Hbij [Hp Hr]%freshFor_spec p r. simpl.
  destruct (decide (p = prefix)) as [->|Hpne];
    destruct (decide (r = rigName)) as [->|Hrne].
  - rewrite !lookup_insert_eq. split; reflexivity.
  - rewrite lookup_insert_eq, lookup_insert_ne by congruence. split.
    + intros [= ->]. congruence.
    + intros Hback%Hbij. destruct Hp as [Hp|Hp]; congruence.
  - rewrite lookup_insert_ne, lookup_insert_eq by congruence. split.
    + intros Hfwd%Hbij. destruct Hr as [Hr|Hr]; congruence.
    + intros [= ->]. congruence.
  - rewrite !lookup_insert_ne by congruence. apply Hbij.
Qed.

Lemma Bijective_registerAll (calls : list (string * string)) :
  ∀ reg : Registry,
    Bijective reg → allFresh reg calls = true →
    Bijective (registerAll reg calls).
Proof.
  induction calls as [|[prefix rigName] calls IH]; intros reg Hbij Hfresh.
  - exact Hbij.
  - simpl in Hfresh. apply andb_true_iff in Hfresh as [Hhd Htl].
    simpl. apply IH; [|exact Htl]. by apply Bijective_register.
Qed.

(** On a registry whose directions agree, a registration that displaces a
    pair leaves the stale entry of the other direction behind. *)
Lemma Bijective_register_fresh (reg : Registry) (prefix rigName : string) :
  Bijective reg →
  Bijective (RegisterPrefix reg prefix rigName) →
  freshFor reg prefix rigName = true.
Proof.
  intros Hbij Hafter. apply freshFor_spec. split.
  - destruct (prefixToRig reg !! prefix) as [r'|] eqn:Hold; [|by left].
    right. destruct (decide (r' = rigName)) as [->|Hne]; [reflexivity|].
    exfalso. apply Hbij in Hold.
    assert (Hstale : rigToPrefix (RegisterPrefix reg prefix rigName) !! r'
                     = Some prefix)
      by (simpl; by rewrite lookup_insert_ne).
    apply Hafter in Hstale. simpl in Hstale.
    rewrite lookup_insert_eq in Hstale. congruence.
  - destruct (rigToPrefix reg !! rigName) as [p'|] eqn:Hold; [|by left].
    right. destruct (decide (p' = prefix)) as [->|Hne]; [reflexivity|].
    exfalso. apply Hbij in Hold.
    assert (Hstale : prefixToRig (RegisterPrefix reg prefix rigName) !! p'
                     = Some rigName)
      by (simpl; by rewrite lookup_insert_ne).
    apply Hafter in Hstale. simpl in Hstale.
    rewrite lookup_insert_eq in Hstale. congruence.
Qed.

Lemma registerAll_snoc (reg : Registry) (calls : list (string * string))
    (prefix rigName : string) :
  registerAll reg (calls ++ [(prefix, rigName)])
  = RegisterPrefix (registerAll reg calls) prefix rigName.
Proof. unfold registerAll. by rewrite fold_left_app. Qed.

End RegistryFacts.

Section RegistryClaims.

(** C4, as stated, fails: registering a second prefix for a rig leaves the
    first prefix pointing at the rig, while the rig now points at the second
    prefix only. *)
Lemma registry_not_bijective :
  let reg := registerAll emptyRegistry [("gt", "gastown"); ("g2", "gastown")] in
  RigForPrefix reg "gt" = "gastown"
  ∧ PrefixForRig reg "gastown" = "g2"
  ∧ ¬ Bijective reg.
Proof.
  split; [reflexivity|]. split; [reflexivity|].
  intros Hbij. specialize (Hbij "gt" "gastown").
  assert (Hfwd : prefixToRig
            (registerAll emptyRegistry [("gt", "gastown"); ("g2", "gastown")])
            !! "gt" = Some "gastown") by reflexivity.
  apply Hbij in Hfwd. vm_compute in Hfwd. discriminate.
Qed.

(** C4, amended.  [RegisterPrefix] writes both directions in one step, so
    after any sequence of calls the pair registered last reads back in both
    directions.  After a sequence of calls from the empty registry none of
    which displaces an earlier pair (each call's prefix and rig are
    unregistered or already paired with each other), the two maps are
    inverse to each other: a prefix maps to a rig exactly when the rig maps
    to the prefix.  And on a registry, reached by any sequence of calls,
    whose maps are inverse to each other, one more call keeps them so
    exactly when it displaces nothing: a call that displaces a pair breaks
    the correspondence. *)
Theorem registry_consistent
    (calls : list (string * string)) (prefix rigName : string) :
  (let reg := registerAll emptyRegistry (calls ++ [(prefix, rigName)]) in
   RigForPrefix reg prefix = rigName ∧ PrefixForRig reg rigName = prefix)
  ∧ (allFresh emptyRegistry calls = true →
     Bijective (registerAll emptyRegistry calls)
     ∧ ∀ p r : string,
         IsKnownPrefix (registerAll emptyRegistry calls) p = true →
         RigForPrefix (registerAll emptyRegistry calls) p = r →
         PrefixForRig (registerAll emptyRegistry calls) r = p)
  ∧ (Bijective (registerAll emptyRegistry calls) →
     (Bijective
        (RegisterPrefix (registerAll emptyRegistry calls) prefix rigName)
      ↔ freshFor (registerAll emptyRegistry calls) prefix rigName = true)).
Proof.
  split; [|split].
  - cbv zeta. rewrite registerAll_snoc.
    split; [apply RigForPrefix_register|apply PrefixForRig_register].
  - intros Hfresh.
    pose proof (Bijective_registerAll calls _ Bijective_empty Hfresh) as Hbij.
    split; [exact Hbij|]. intros p r Hknown Hrig.
    unfold IsKnownPrefix in Hknown. apply bool_decide_eq_true in Hknown.
    destruct Hknown as [r' Hr']. unfold RigForPrefix, mapGet in Hrig.
    rewrite Hr' in Hrig. simpl in Hrig. subst r'.
    apply Hbij in Hr'. unfold PrefixForRig, mapGet. by rewrite Hr'.
  - intros Hbij. split.
    + by apply Bijective_register_fresh.
    + by apply Bijective_register.
Qed.

Lemma registry_consistent_witness :
  allFresh emptyRegistry [("gt", "gastown"); ("bd", "beads"); ("gt", "gastown")]
  = true
  ∧ Bijective (registerAll emptyRegistry
                 [("gt", "gastown"); ("bd", "beads"); ("gt", "gastown")]).
Proof.
  assert (Hfresh : allFresh emptyRegistry
            [("gt", "gastown"); ("bd", "beads"); ("gt", "gastown")] = true)
    by (vm_compute; reflexivity).
  split; [exact Hfresh|].
  exact (proj1 (proj1 (proj2 (registry_consistent _ "hop" "hop")) Hfresh)).
Defined.

End RegistryClaims.

(** ** Session names: malformed names, keywords, unregistered prefixes *)

Section SessionNameClaims.

Lemma rigLevel_no_panic (reg : Registry) (s P rest : string) :
  rigLevel reg s P rest ≠ Panic.
Proof.
  unfold rigLevel.
  destruct_ifs; discriminate.
Qed.


Lemma no_hyphen_no_HQ (s : string) :
  hasByte "-" s = false → HasPrefix s HQPrefix = false.
Proof.
  intros Hno. destruct (HasPrefix s HQPrefix) eqn:Hhq; [|reflexivity].
  apply HasPrefix_inv in Hhq. rewrite Hhq, hasByte_app in Hno. discriminate.
Qed.

Lemma empty_rest_rejected (reg : Registry) (P : string) :
  hasByte "-" P = false → P ≠ "hq" →
  ParseSessionName reg (P ++ "-") = Err (NoPrefixRoleSeparator (P ++ "-")).
Proof.
  intros HP Hhq. unfold ParseSessionName.
  pose proof (HasPrefix_HQ_rig P "" HP Hhq) as Hnohq.
  change (P ++ "-" ++ "") with (P ++ "-") in Hnohq. rewrite Hnohq.
  rewrite (Index_byte_first "-" P "" HP), len_app.
  change (len "-") with 1.
  replace (len P =? len P + 1 - 1) with true by (symmetry; apply Z.eqb_eq; lia).
  by rewrite orb_true_r.
Qed.

(** C9.  A malformed session name is answered with a parse error that names
    what is wrong: a name with no separator, a name that ends right after
    the separator, a name that starts with the separator, and a name that
    ends right after the [crew-] marker.  No input makes the decoder
    panic. *)
Theorem malformed_session_rejected (reg : Registry) :
  (∀ s : string,
     hasByte "-" s = false →
     ParseSessionName reg s = Err (NoPrefixRoleSeparator s))
  ∧ (∀ P : string,
       hasByte "-" P = false →
       ParseSessionName reg (P ++ "-")
       = Err (if String.eqb P "hq" then UnknownHQRole (P ++ "-")
              else NoPrefixRoleSeparator (P ++ "-")))
  ∧ (∀ rest : string,
       ParseSessionName reg ("-" ++ rest)
       = Err (NoPrefixRoleSeparator ("-" ++ rest)))
  ∧ (∀ P : string,
       hasByte "-" P = false →
       ParseSessionName reg (P ++ "-crew-")
       = Err (if String.eqb P "hq" then UnknownHQRole (P ++ "-crew-")
              else if String.eqb P "" then NoPrefixRoleSeparator (P ++ "-crew-")
              else EmptyCrewName (P ++ "-crew-")))
  ∧ (∀ s : string, ParseSessionName reg s ≠ Panic).
Proof.
  split; [|split; [|split; [|split]]].
  - intros s Hno. unfold ParseSessionName.
    by rewrite (no_hyphen_no_HQ s Hno), (Index_byte_absent "-" s Hno).
  - intros P HP. destruct (String.eqb_spec P "hq") as [->|Hhq];
      [reflexivity|by apply empty_rest_rejected].
  - intros rest. reflexivity.
  - intros P HP. destruct (String.eqb_spec P "hq") as [->|Hhq]; [reflexivity|].
    destruct (String.eqb_spec P "") as [->|Hne]; [reflexivity|].
    change (P ++ "-crew-") with (P ++ "-" ++ "crew-").
    by rewrite ParseSessionName_rig.
  - intros s.
    destruct (ParseSessionName_cases reg s)
      as [[_ Hhq]|[[_ Hsep]|(P & rest & _ & _ & _ & _ & _ & Hrig)]].
    + destruct Hhq as [->|[[_ ->]|[[_ ->]|[[_ ->]|[_ ->]]]]]; discriminate.
    + rewrite Hsep. discriminate.
    + rewrite Hrig. apply rigLevel_no_panic.
Qed.

Lemma malformed_session_rejected_witness :
  ParseSessionName emptyRegistry "gastown"
  = Err (NoPrefixRoleSeparator "gastown")
  ∧ ParseSessionName emptyRegistry "gt-" = Err (NoPrefixRoleSeparator "gt-")
  ∧ ParseSessionName emptyRegistry "gt-crew-" = Err (EmptyCrewName "gt-crew-").
Proof.
  destruct (malformed_session_rejected emptyRegistry)
    as (Hnosep & Hend & _ & Hcrew & _).
  split; [apply Hnosep; reflexivity|].
  split; [apply (Hend "gt"); reflexivity|apply (Hcrew "gt"); reflexivity].
Defined.







End SessionNameClaims.

(** ** The address decoder *)

Section AddressFacts.

Context (reg : Registry).

Lemma drop_app_plus (a b : string) (k : nat) :
  drop (String.length a + k) (a ++ b) = drop k b.
Proof. induction a as [|c a IH]; simpl; [reflexivity|exact IH]. Qed.

(** A string that ends in a piece without [c] does not end in [c]. *)
Lemma HasSuffix_byte_app (c : ascii) (a b : string) :
  b ≠ "" → hasByte c b = false → HasSuffix (a ++ b) (String c "") = false.
Proof.
  intros Hne Hno. unfold HasSuffix. rewrite length_app.
  destruct b as [|x b]; [congruence|]. simpl String.length.
  replace (String.length a + S (String.length b) - 1)%nat
    with (String.length a + String.length b)%nat by lia.
  rewrite drop_app_plus.
  destruct (String.eqb_spec (drop (String.length b) (String x b)) (String c ""))
    as [Hlast|_]; [|by rewrite andb_false_r].
  pose proof (take_drop (String.length b) (String x b)) as Hsplit.
  rewrite Hlast in Hsplit. rewrite <- Hsplit, hasByte_app in Hno.
  simpl in Hno. rewrite Ascii.eqb_refl, orb_true_r in Hno. discriminate.
Qed.

Lemma ParseAddress_trimmed (s : string) :
  ParseAddress reg (TrimSpace s) = ParseAddress reg s.
Proof. unfold ParseAddress. by rewrite TrimSpace_idempotent. Qed.

(** An address with a slash in it that does not end in one goes to the
    segment switch as it is. *)
Lemma ParseAddress_segments (s a : string) :
  TrimSpace s = a → hasByte "/" a = true → HasSuffix a "/" = false →
  ParseAddress reg s = bySegments reg a.
Proof.
  intros Htrim Hslash Hend. unfold ParseAddress. rewrite Htrim.
  assert (Hword : ∀ w, hasByte "/" w = false → String.eqb a w = false).
  { intros w Hw. destruct (String.eqb_spec a w); [congruence|reflexivity]. }
  assert (Hdir : ∀ w, HasSuffix w "/" = true → String.eqb a w = false).
  { intros w Hw. destruct (String.eqb_spec a w); [congruence|reflexivity]. }
  rewrite (Hword "" eq_refl), (Hword "mayor" eq_refl),
    (Hword "deacon" eq_refl), (Hword "overseer" eq_refl),
    (Hdir "mayor/" eq_refl), (Hdir "deacon/" eq_refl).
  cbn [orb]. unfold TrimSuffix. rewrite Hend. reflexivity.
Qed.

Lemma Split_three (a b c : string) :
  hasByte "/" a = false → hasByte "/" b = false → hasByte "/" c = false →
  Split (a ++ "/" ++ b ++ "/" ++ c) "/" = [a; b; c].
Proof.
  intros Ha Hb Hc.
  change (a ++ "/" ++ b ++ "/" ++ c) with (a ++ String "/" (b ++ String "/" c)).
  by rewrite (Split_first "/" a _ Ha), (Split_first "/" b _ Hb),
    (Split_absent "/" c Hc).
Qed.

Lemma Split_two (a b : string) :
  hasByte "/" a = false → hasByte "/" b = false →
  Split (a ++ "/" ++ b) "/" = [a; b].
Proof.
  intros Ha Hb. change (a ++ "/" ++ b) with (a ++ String "/" b).
  by rewrite (Split_first "/" a _ Ha), (Split_absent "/" b Hb).
Qed.

Lemma slashed (a b : string) : hasByte "/" (a ++ "/" ++ b) = true.
Proof.
  rewrite hasByte_app. change ("/" ++ b) with (String "/" b). simpl.
  by rewrite orb_true_r.
Qed.

(** The two- and three-segment addresses, once trimmed. *)
Lemma ParseAddress_two (s rig name : string) :
  TrimSpace s = rig ++ "/" ++ name →
  hasByte "/" rig = false → hasByte "/" name = false → name ≠ "" →
  ParseAddress reg s = bySegments reg (rig ++ "/" ++ name)
  ∧ Split (rig ++ "/" ++ name) "/" = [rig; name].
Proof.
  intros Htrim Hrig Hname Hne. split; [|by apply Split_two].
  apply ParseAddress_segments; [exact Htrim|apply slashed|].
  rewrite <- app_assoc. by apply HasSuffix_byte_app.
Qed.

Lemma ParseAddress_three (s rig kind name : string) :
  TrimSpace s = rig ++ "/" ++ kind ++ "/" ++ name →
  hasByte "/" rig = false → hasByte "/" kind = false →
  hasByte "/" name = false → name ≠ "" →
  ParseAddress reg s = bySegments reg (rig ++ "/" ++ kind ++ "/" ++ name)
  ∧ Split (rig ++ "/" ++ kind ++ "/" ++ name) "/" = [rig; kind; name].
Proof.
  intros Htrim Hrig Hkind Hname Hne. split; [|by apply Split_three].
  apply ParseAddress_segments; [exact Htrim|apply slashed|].
  replace (rig ++ "/" ++ kind ++ "/" ++ name)
    with ((rig ++ "/" ++ kind ++ "/") ++ name)
    by (by rewrite !app_assoc).
  by apply HasSuffix_byte_app.
Qed.

Lemma trimLeftFuel_spaces (s : string) :
  allASCIISpace s = true →
  ∀ fuel : nat, (String.length s ≤ fuel)%nat → trimLeftFuel fuel s = "".
Proof.
  induction s as [|c s IH]; intros Hall fuel Hfuel.
  - by destruct fuel.
  - simpl in Hall. apply andb_true_iff in Hall as [Hc Hs].
    destruct fuel as [|fuel]; [simpl in Hfuel; lia|].
    cbn [trimLeftFuel]. simpl spaceWidth. rewrite Hc. cbn [drop].
    apply IH; [exact Hs|simpl in Hfuel; lia].
Qed.

Lemma TrimSpace_spaces (s : string) : allASCIISpace s = true → TrimSpace s = "".
Proof.
  intros Hall. unfold TrimSpace, TrimLeftSpace.
  by rewrite (trimLeftFuel_spaces s Hall).
Qed.

End AddressFacts.

Section AddressClaims.

(** C8, as stated, fails for two of the two-segment addresses it calls
    "any other": [project/witness] and [project/refinery] are not the worker
    shorthand, they decode as the witness and the refinery of the project. *)
Lemma address_singletons_not_polecats :
  let reg := RegisterPrefix emptyRegistry "gt" "gastown" in
  ParseAddress reg "gastown/witness"
  = Ok (mkIdentity RoleWitness "gastown" "" "gt")
  ∧ ParseAddress reg "gastown/witness"
    ≠ Ok (mkIdentity RolePolecat "gastown" "witness" "gt")
  ∧ ParseAddress reg "gastown/refinery"
    = Ok (mkIdentity RoleRefinery "gastown" "" "gt")
  ∧ ParseAddress reg "gastown/refinery"
    ≠ Ok (mkIdentity RolePolecat "gastown" "refinery" "gt").
Proof.
  cbv zeta. split; [vm_compute; reflexivity|].
  split; [vm_compute; intros [=]|].
  split; [vm_compute; reflexivity|vm_compute; intros [=]].
Qed.

(** C8, amended.  The address decoder, on the address once its surrounding
    white space is gone, with segments that hold no slash and a name that
    is not empty: [project/crew/name] is the crew member [name] of
    [project]; [project/polecats/name] is the polecat [name]; the
    two-segment addresses [project/crew] and [project/polecats], which lack
    the name, are invalid; the word [overseer] is refused;
    [project/witness] and [project/refinery] are the witness and the
    refinery of the project; and any other two-segment [project/name] is the
    polecat [name]. *)
Theorem address_forms (reg : Registry) (s project name : string) :
  hasByte "/" project = false → hasByte "/" name = false → name ≠ "" →
  (TrimSpace s = project ++ "/crew/" ++ name →
     ParseAddress reg s
     = Ok (mkIdentity RoleCrew project name (PrefixForRig reg project)))
  ∧ (TrimSpace s = project ++ "/polecats/" ++ name →
       ParseAddress reg s
       = Ok (mkIdentity RolePolecat project name (PrefixForRig reg project)))
  ∧ (TrimSpace s = project ++ "/crew" →
       ParseAddress reg s = Err (InvalidAddress (project ++ "/crew")))
  ∧ (TrimSpace s = project ++ "/polecats" →
       ParseAddress reg s = Err (InvalidAddress (project ++ "/polecats")))
  ∧ (TrimSpace s = "overseer" → ParseAddress reg s = Err OverseerHasNoSession)
  ∧ (TrimSpace s = project ++ "/" ++ name →
       name ≠ "witness" → name ≠ "refinery" →
       name ≠ "crew" → name ≠ "polecats" →
       ParseAddress reg s
       = Ok (mkIdentity RolePolecat project name (PrefixForRig reg project)))
  ∧ (TrimSpace s = project ++ "/witness" →
       ParseAddress reg s
       = Ok (mkIdentity RoleWitness project "" (PrefixForRig reg project)))
  ∧ (TrimSpace s = project ++ "/refinery" →
       ParseAddress reg s
       = Ok (mkIdentity RoleRefinery project "" (PrefixForRig reg project))).
Proof.
  intros Hproject Hname Hne.
  split; [|split; [|split; [|split; [|split; [|split; [|split]]]]]].
  - intros Htrim.
    destruct (ParseAddress_three reg s project "crew" name) as [-> Hsplit];
      try done.
    unfold bySegments. by rewrite Hsplit.
  - intros Htrim.
    destruct (ParseAddress_three reg s project "polecats" name) as [-> Hsplit];
      try done.
    unfold bySegments. by rewrite Hsplit.
  - intros Htrim.
    destruct (ParseAddress_two reg s project "crew") as [-> Hsplit]; try done.
    unfold bySegments. by rewrite Hsplit.
  - intros Htrim.
    destruct (ParseAddress_two reg s project "polecats") as [-> Hsplit];
      try done.
    unfold bySegments. by rewrite Hsplit.
  - intros Htrim. unfold ParseAddress. by rewrite Htrim.
  - intros Htrim Hw Hr Hc Hp.
    destruct (ParseAddress_two reg s project name) as [-> Hsplit]; try done.
    unfold bySegments. rewrite Hsplit.
    destruct (String.eqb_spec name "witness"); [done|].
    destruct (String.eqb_spec name "refinery"); [done|].
    destruct (String.eqb_spec name "crew"); [done|].
    by destruct (String.eqb_spec name "polecats").
  - intros Htrim.
    destruct (ParseAddress_two reg s project "witness") as [-> Hsplit];
      try done.
    unfold bySegments. by rewrite Hsplit.
  - intros Htrim.
    destruct (ParseAddress_two reg s project "refinery") as [-> Hsplit];
      try done.
    unfold bySegments. by rewrite Hsplit.
Qed.

Lemma address_forms_witness :
  hasByte "/" "gastown" = false
  ∧ ParseAddress (RegisterPrefix emptyRegistry "gt" "gastown") "gastown/crew/max"
    = Ok (mkIdentity RoleCrew "gastown" "max" "gt")
  ∧ ParseAddress (RegisterPrefix emptyRegistry "gt" "gastown") " gastown/crew "
    = Err (InvalidAddress "gastown/crew").
Proof.
  split; [reflexivity|].
  pose (reg := RegisterPrefix emptyRegistry "gt" "gastown").
  split.
  - assert (Hmax : "max" ≠ "") by discriminate.
    destruct (address_forms reg "gastown/crew/max" "gastown" "max"
                eq_refl eq_refl Hmax) as (Hcrew & _).
    exact (Hcrew eq_refl).
  - assert (Hmax : "max" ≠ "") by discriminate.
    destruct (address_forms reg " gastown/crew " "gastown" "max"
                eq_refl eq_refl Hmax) as (_ & _ & Hbare & _).
    exact (Hbare eq_refl).
Defined.

Lemma rigLevel_shape (reg : Registry) (s P rest : string) (x : AgentIdentity) :
  rigLevel reg s P rest = Ok x →
  x = mkIdentity RoleWitness (RigForPrefix reg P) "" P ∧ rest = "witness"
  ∨ x = mkIdentity RoleRefinery (RigForPrefix reg P) "" P ∧ rest = "refinery"
  ∨ x = mkIdentity RoleDeacon "" "boot" P ∧ rest = "boot"
  ∨ (∃ name : string,
       x = mkIdentity RoleCrew (RigForPrefix reg P) name P
       ∧ rest = "crew-" ++ name ∧ name ≠ "")
  ∨ x = mkIdentity RolePolecat (RigForPrefix reg P) rest P
    ∧ rest ≠ "witness" ∧ rest ≠ "refinery" ∧ rest ≠ "boot"
    ∧ HasPrefix rest "crew-" = false.
Proof.
  unfold rigLevel.
  destruct (String.eqb_spec rest "witness"); [intros [= <-]; auto|].
  destruct (String.eqb_spec rest "refinery"); [intros [= <-]; auto|].
  destruct (String.eqb_spec rest "boot"); [intros [= <-]; auto 6|].
  destruct (HasPrefix rest "crew-") eqn:Hcrew.
  - destruct (String.eqb_spec (drop 5 rest) ""); [intros [=]|].
    intros [= <-]. do 3 right. left. exists (drop 5 rest).
    split; [reflexivity|]. split; [|assumption].
    exact (HasPrefix_inv rest "crew-" Hcrew).
  - destruct (String.eqb_spec rest ""); [intros [=]|].
    intros [= <-]. do 4 right. auto.
Qed.

(** C10.  [ParseAddress] decodes an address as it decodes the address
    without its leading and trailing white space, and an address that is
    empty or all white space is the empty-address error.
    [ParseSessionName] trims nothing: the prefix and the name of the
    identity are the bytes of the session name before and after the
    separator, white space included. *)
Theorem address_trimmed_session_verbatim (reg : Registry) (s : string) :
  ParseAddress reg s = ParseAddress reg (TrimSpace s)
  ∧ (TrimSpace s = "" → ParseAddress reg s = Err EmptyAddress)
  ∧ (allASCIISpace s = true → ParseAddress reg s = Err EmptyAddress)
  ∧ (∀ x : AgentIdentity,
       ParseSessionName reg s = Ok x →
       (idRole x = RolePolecat → s = idPrefix x ++ "-" ++ idName x)
       ∧ (idRole x = RoleCrew → s = idPrefix x ++ "-crew-" ++ idName x))
  ∧ ParseSessionName reg " gt-witness "
    = Ok (mkIdentity RolePolecat (RigForPrefix reg " gt") "witness " " gt")
  ∧ ParseSessionName reg " gt-witness "
    ≠ ParseSessionName reg (TrimSpace " gt-witness ").
Proof.
  assert (Hempty : TrimSpace s = "" → ParseAddress reg s = Err EmptyAddress).
  { intros Htrim. unfold ParseAddress. by rewrite Htrim. }
  split; [symmetry; apply ParseAddress_trimmed|].
  split; [exact Hempty|].
  split; [intros Hall; apply Hempty; by apply TrimSpace_spaces|].
  split; [|split].
  - intros x Hx.
    destruct (ParseSessionName_cases reg s)
      as [[_ Hhq]|[[_ Hsep]|(P & rest & Hs & _ & _ & _ & _ & Hrig)]].
    + destruct Hhq as [Hq|[[_ Hq]|[[_ Hq]|[[_ Hq]|[_ Hq]]]]];
        rewrite Hq in Hx; try discriminate Hx;
        injection Hx as <-; split; discriminate.
    + rewrite Hsep in Hx. discriminate Hx.
    + rewrite Hrig in Hx. apply rigLevel_shape in Hx.
      destruct Hx as [[-> _]|[[-> _]|[[-> _]|[(name & -> & Hr & _)|[-> _]]]]];
        simpl; split; try discriminate; intros _; try exact Hs.
      rewrite Hs, Hr. reflexivity.
  - change " gt-witness " with (" gt" ++ "-" ++ "witness ").
    by rewrite ParseSessionName_rig.
  - change (TrimSpace " gt-witness ") with ("gt" ++ "-" ++ "witness").
    change " gt-witness " with (" gt" ++ "-" ++ "witness ").
    rewrite !ParseSessionName_rig by done. discriminate.
Qed.

Lemma address_trimmed_session_verbatim_witness :
  allASCIISpace "   " = true
  ∧ ParseAddress emptyRegistry "   " = Err EmptyAddress.
Proof.
  split; [reflexivity|].
  destruct (address_trimmed_session_verbatim emptyRegistry "   ")
    as (_ & _ & Hspaces & _).
  exact (Hspaces eq_refl).
Defined.

End AddressClaims.

(** ** Round trips *)

Section RoundTrip.

Context (reg : Registry).

Lemma rigPrefix_own (a : AgentIdentity) :
  idPrefix a ≠ "" → rigPrefix reg a = idPrefix a.
Proof.
  intros Hne. unfold rigPrefix.
  by destruct (String.eqb_spec (idPrefix a) "").
Qed.




End RoundTrip.

Section RoundTripClaims.




End RoundTripClaims.

(** ** The repository's own test vectors *)

Section TestVectors.

Let reg : Registry :=
  registerAll emptyRegistry [("gt", "gastown"); ("bd", "beads"); ("hop", "hop")].

(** [TestParseSessionName]. *)
Example parse_session_vectors :
  ParseSessionName reg "hq-mayor" = Ok (mkIdentity RoleMayor "" "" "")
  ∧ ParseSessionName reg "hq-deacon" = Ok (mkIdentity RoleDeacon "" "" "")
  ∧ ParseSessionName reg "hq-boot" = Ok (mkIdentity RoleDeacon "" "boot" "")
  ∧ ParseSessionName reg "gt-witness"
    = Ok (mkIdentity RoleWitness "gastown" "" "gt")
  ∧ ParseSessionName reg "bd-refinery"
    = Ok (mkIdentity RoleRefinery "beads" "" "bd")
  ∧ ParseSessionName reg "gt-crew-max"
    = Ok (mkIdentity RoleCrew "gastown" "max" "gt")
  ∧ ParseSessionName reg "gt-crew-my-worker"
    = Ok (mkIdentity RoleCrew "gastown" "my-worker" "gt")
  ∧ ParseSessionName reg "hop-ostrom"
    = Ok (mkIdentity RolePolecat "hop" "ostrom" "hop")
  ∧ ParseSessionName reg "xyz-witness"
    = Ok (mkIdentity RoleWitness "" "" "xyz")
  ∧ ParseSessionName reg "gastown" = Err (NoPrefixRoleSeparator "gastown")
  ∧ ParseSessionName reg "gt-" = Err (NoPrefixRoleSeparator "gt-").
Proof. repeat split; vm_compute; reflexivity. Qed.

(** [TestAgentIdentity_SessionName] and [TestAgentIdentity_Address]. *)
Example encode_vectors :
  SessionName reg (mkIdentity RoleMayor "" "" "") = "hq-mayor"
  ∧ SessionName reg (mkIdentity RoleDeacon "" "" "") = "hq-deacon"
  ∧ SessionName reg (mkIdentity RoleWitness "gastown" "" "gt") = "gt-witness"
  ∧ SessionName reg (mkIdentity RoleCrew "gastown" "max" "gt") = "gt-crew-max"
  ∧ SessionName reg (mkIdentity RolePolecat "gastown" "morsov" "gt")
    = "gt-morsov"
  ∧ SessionName reg (mkIdentity RoleWitness "gastown" "" "") = "gt-witness"
  ∧ Address (mkIdentity RoleRefinery "my-project" "" "") = "my-project/refinery"
  ∧ Address (mkIdentity RoleCrew "gastown" "max" "") = "gastown/crew/max"
  ∧ Address (mkIdentity RolePolecat "gastown" "Toast" "")
    = "gastown/polecats/Toast".
Proof. repeat split; vm_compute; reflexivity. Qed.

(** [TestParseAddress]. *)
Example parse_address_vectors :
  ParseAddress reg "mayor/" = Ok (mkIdentity RoleMayor "" "" "")
  ∧ ParseAddress reg "deacon" = Ok (mkIdentity RoleDeacon "" "" "")
  ∧ ParseAddress reg "gastown/witness"
    = Ok (mkIdentity RoleWitness "gastown" "" "gt")
  ∧ ParseAddress reg "rig-a/refinery"
    = Ok (mkIdentity RoleRefinery "rig-a" "" "")
  ∧ ParseAddress reg "gastown/crew/max"
    = Ok (mkIdentity RoleCrew "gastown" "max" "gt")
  ∧ ParseAddress reg "gastown/polecats/nux"
    = Ok (mkIdentity RolePolecat "gastown" "nux" "gt")
  ∧ ParseAddress reg "gastown/nux"
    = Ok (mkIdentity RolePolecat "gastown" "nux" "gt")
  ∧ ParseAddress reg "gastown/crew" = Err (InvalidAddress "gastown/crew").
Proof. repeat split; vm_compute; reflexivity. Qed.

(** [TestRegistryOperations]. *)
Example registry_vectors :
  PrefixForRig reg "gastown" = "gt"
  ∧ RigForPrefix reg "bd" = "beads"
  ∧ PrefixForRig reg "unknown" = ""
  ∧ IsKnownPrefix reg "gt" = true
  ∧ IsKnownPrefix reg "zz" = false
  ∧ IsKnownPrefix (ClearRegistry reg) "gt" = false.
Proof. repeat split; vm_compute; reflexivity. Qed.

End TestVectors.

(** * Further properties of the code *)

(** ** The registry as a pair of maps *)

Section RegistryLookups.

Lemma IsKnownPrefix_true (reg : Registry) (p : string) :
  IsKnownPrefix reg p = true ↔ is_Some (prefixToRig reg !! p).
Proof. unfold IsKnownPrefix. apply bool_decide_eq_true. Qed.

Lemma IsKnownPrefix_false (reg : Registry) (p : string) :
  IsKnownPrefix reg p = false ↔ prefixToRig reg !! p = None.
Proof.
  unfold IsKnownPrefix. rewrite bool_decide_eq_false.
  rewrite <- eq_None_not_Some. reflexivity.
Qed.

(** A registration reads back, and touches no other prefix and no other
    rig: the lookups of every other key are what they were. *)
Theorem register_touches_one_pair (reg : Registry) (prefix rigName : string) :
  IsKnownPrefix (RegisterPrefix reg prefix rigName) prefix = true
  ∧ (∀ p : string,
       p ≠ prefix →
       RigForPrefix (RegisterPrefix reg prefix rigName) p = RigForPrefix reg p
       ∧ IsKnownPrefix (RegisterPrefix reg prefix rigName) p
         = IsKnownPrefix reg p)
  ∧ (∀ r : string,
       r ≠ rigName →
       PrefixForRig (RegisterPrefix reg prefix rigName) r = PrefixForRig reg r).
Proof.
  split; [|split].
  - apply IsKnownPrefix_true. simpl. rewrite lookup_insert_eq. eauto.
  - intros p Hp. unfold RigForPrefix, IsKnownPrefix, mapGet. simpl.
    by rewrite lookup_insert_ne.
  - intros r Hr. unfold PrefixForRig, mapGet. simpl.
    by rewrite lookup_insert_ne.
Qed.

Lemma register_touches_one_pair_witness :
  RigForPrefix
    (RegisterPrefix (RegisterPrefix emptyRegistry "gt" "gastown") "bd" "beads")
    "gt"
  = "gastown".
Proof.
  destruct (register_touches_one_pair
              (RegisterPrefix emptyRegistry "gt" "gastown") "bd" "beads")
    as (_ & Hprefix & _).
  destruct (Hprefix "gt") as [Hrig _]; [discriminate|].
  rewrite Hrig. apply RigForPrefix_register.
Defined.

(** A prefix that is not registered reads as the empty rig, so a non-empty
    rig name tells that the prefix is registered; the converse fails exactly
    for a prefix registered with the empty rig name.  After [ClearRegistry]
    every prefix and every rig reads as empty. *)
Theorem unknown_reads_empty (reg : Registry) (p r : string) :
  (IsKnownPrefix reg p = false → RigForPrefix reg p = "")
  ∧ (RigForPrefix reg p ≠ "" → IsKnownPrefix reg p = true)
  ∧ (IsKnownPrefix reg p = true ∧ RigForPrefix reg p = ""
     ↔ prefixToRig reg !! p = Some "")
  ∧ IsKnownPrefix (ClearRegistry reg) p = false
  ∧ RigForPrefix (ClearRegistry reg) p = ""
  ∧ PrefixForRig (ClearRegistry reg) r = "".
Proof.
  assert (Hunknown : IsKnownPrefix reg p = false → RigForPrefix reg p = "").
  { intros Hp%IsKnownPrefix_false. unfold RigForPrefix, mapGet. by rewrite Hp. }
  split; [exact Hunknown|]. split; [|split].
  - intros Hrig. destruct (IsKnownPrefix reg p) eqn:Hp; [reflexivity|].
    by specialize (Hunknown eq_refl).
  - rewrite IsKnownPrefix_true. unfold RigForPrefix, mapGet. split.
    + intros [[x Hx] Hrig]. rewrite Hx in Hrig. simpl in Hrig. by subst x.
    + intros Hx. rewrite Hx. eauto.
  - repeat split.
Qed.

Lemma unknown_reads_empty_witness :
  RigForPrefix (RegisterPrefix emptyRegistry "gt" "gastown") "xyz" = "".
Proof.
  destruct (unknown_reads_empty
              (RegisterPrefix emptyRegistry "gt" "gastown") "xyz" "")
    as (Hunknown & _).
  apply Hunknown. vm_compute. reflexivity.
Defined.

(** [AllRegisteredPrefixes] lists each registered prefix once and nothing
    else; registering a new prefix makes the list one longer, registering a
    known prefix again leaves its length, and [ClearRegistry] empties it. *)
Theorem all_prefixes_are_the_known (reg : Registry) (prefix rigName : string) :
  NoDup (AllRegisteredPrefixes reg)
  ∧ (∀ p : string, p ∈ AllRegisteredPrefixes reg ↔ IsKnownPrefix reg p = true)
  ∧ List.length (AllRegisteredPrefixes (RegisterPrefix reg prefix rigName))
    = (if IsKnownPrefix reg prefix
       then List.length (AllRegisteredPrefixes reg)
       else S (List.length (AllRegisteredPrefixes reg)))
  ∧ AllRegisteredPrefixes (ClearRegistry reg) = [].
Proof.
  unfold AllRegisteredPrefixes. split; [apply NoDup_fst_map_to_list|].
  split; [|split].
  - intros p. rewrite IsKnownPrefix_true, list_elem_of_fmap. split.
    + intros ([k v] & -> & Hin%elem_of_map_to_list). simpl. eauto.
    + intros [v Hv]. exists (p, v). split; [reflexivity|].
      by apply elem_of_map_to_list.
  - rewrite !length_fmap, !length_map_to_list. simpl.
    rewrite map_size_insert.
    destruct (IsKnownPrefix reg prefix) eqn:Hknown.
    + apply IsKnownPrefix_true in Hknown as [v ->]. reflexivity.
    + apply IsKnownPrefix_false in Hknown as ->. reflexivity.
  - simpl. by rewrite map_to_list_empty.
Qed.

Lemma all_prefixes_are_the_known_witness :
  "bd" ∈ AllRegisteredPrefixes
           (registerAll emptyRegistry [("gt", "gastown"); ("bd", "beads")]).
Proof.
  destruct (all_prefixes_are_the_known
              (registerAll emptyRegistry [("gt", "gastown"); ("bd", "beads")])
              "" "")
    as (_ & Hin & _).
  apply Hin. vm_compute. reflexivity.
Defined.

End RegistryLookups.

(** ** Encoding an identity and decoding it again *)

Section EncodeDecode.

Context (reg : Registry).

Lemma sessionPrefix_spec (P : string) :
  sessionPrefix P = true ↔ P ≠ "" ∧ hasByte "-" P = false ∧ P ≠ "hq".
Proof.
  unfold sessionPrefix.
  rewrite !andb_true_iff, !negb_true_iff, !String.eqb_neq. tauto.
Qed.

Lemma rigLevel_witness (s P : string) :
  rigLevel reg s P "witness"
  = Ok (mkIdentity RoleWitness (RigForPrefix reg P) "" P).
Proof. reflexivity. Qed.

Lemma rigLevel_refinery (s P : string) :
  rigLevel reg s P "refinery"
  = Ok (mkIdentity RoleRefinery (RigForPrefix reg P) "" P).
Proof. reflexivity. Qed.

Lemma rigLevel_crew (s P name : string) :
  name ≠ "" →
  rigLevel reg s P ("crew-" ++ name)
  = Ok (mkIdentity RoleCrew (RigForPrefix reg P) name P).
Proof.
  intros Hname. unfold rigLevel. simpl.
  by destruct (String.eqb_spec name "").
Qed.

Lemma rigLevel_polecat (s P name : string) :
  name ≠ "" → name ≠ "witness" → name ≠ "refinery" → name ≠ "boot" →
  HasPrefix name "crew-" = false →
  rigLevel reg s P name
  = Ok (mkIdentity RolePolecat (RigForPrefix reg P) name P).
Proof.
  intros Hn Hw Hr Hb Hc. unfold rigLevel. rewrite Hc.
  destruct (String.eqb_spec name "witness"); [done|].
  destruct (String.eqb_spec name "refinery"); [done|].
  destruct (String.eqb_spec name "boot"); [done|].
  by destruct (String.eqb_spec name "").
Qed.

(** An identity built by hand, if [SessionName] can carry it, comes back
    from its session name: [ParseSessionName] after [SessionName] is the
    identity. *)
Theorem session_name_decodes_back (x : AgentIdentity) :
  sessionEncodable reg x = true →
  ParseSessionName reg (SessionName reg x) = Ok x.
Proof.
  destruct x as [role rig name P]. unfold sessionEncodable, SessionName.
  cbn [idRole idRig idName idPrefix].
  destruct (String.eqb_spec role RoleMayor) as [->|_].
  { rewrite !andb_true_iff, !String.eqb_eq. intros [[-> ->] ->]. reflexivity. }
  destruct (String.eqb_spec role RoleDeacon) as [->|_].
  { rewrite !andb_true_iff, orb_true_iff, !String.eqb_eq.
    intros [[-> ->] [->| ->]]; reflexivity. }
  destruct (String.eqb_spec role RoleWitness) as [->|_].
  { cbn [orb]. rewrite !andb_true_iff, !String.eqb_eq, sessionPrefix_spec.
    intros [[-> (HP & Hh & Hq)] ->].
    rewrite rigPrefix_own by exact HP. cbn [idPrefix].
    change (WitnessSessionName P) with (P ++ "-" ++ "witness").
    by rewrite ParseSessionName_rig. }
  destruct (String.eqb_spec role RoleRefinery) as [->|_].
  { cbn [orb]. rewrite !andb_true_iff, !String.eqb_eq, sessionPrefix_spec.
    intros [[-> (HP & Hh & Hq)] ->].
    rewrite rigPrefix_own by exact HP. cbn [idPrefix].
    change (RefinerySessionName P) with (P ++ "-" ++ "refinery").
    by rewrite ParseSessionName_rig. }
  cbn [orb].
  destruct (String.eqb_spec role RoleCrew) as [->|_].
  { rewrite !andb_true_iff, negb_true_iff, String.eqb_neq, String.eqb_eq,
      sessionPrefix_spec.
    intros [[Hname (HP & Hh & Hq)] ->].
    rewrite rigPrefix_own by exact HP. cbn [idPrefix idName].
    change (CrewSessionName P name) with (P ++ "-" ++ "crew-" ++ name).
    rewrite ParseSessionName_rig by done. by apply rigLevel_crew. }
  destruct (String.eqb_spec role RolePolecat) as [->|_]; [|discriminate].
  rewrite !andb_true_iff, !negb_true_iff, !String.eqb_neq, String.eqb_eq,
    sessionPrefix_spec.
  intros [[[[[[Hname Hw] Hr] Hb] Hc] (HP & Hh & Hq)] ->].
  rewrite rigPrefix_own by exact HP. cbn [idPrefix idName].
  change (PolecatSessionName P name) with (P ++ "-" ++ name).
  rewrite ParseSessionName_rig by done. by apply rigLevel_polecat.
Qed.

End EncodeDecode.

Lemma session_name_decodes_back_witness :
  ParseSessionName (RegisterPrefix emptyRegistry "bd" "beads")
    (SessionName (RegisterPrefix emptyRegistry "bd" "beads")
       (mkIdentity RolePolecat "beads" "worker1" "bd"))
  = Ok (mkIdentity RolePolecat "beads" "worker1" "bd").
Proof.
  apply session_name_decodes_back. vm_compute. reflexivity.
Defined.

(** The role constants, as the strings they are. *)
Ltac unfold_roles :=
  unfold RoleMayor, RoleDeacon, RoleWitness, RoleRefinery, RoleCrew,
    RolePolecat in *.

Section AddressEncodeDecode.

Context (reg : Registry).

(** An identity built by hand, if [Address] can carry it, comes back from
    its address: [ParseAddress] after [Address] is the identity. *)
Theorem address_decodes_back (x : AgentIdentity) :
  addressEncodable reg x = true →
  ParseAddress reg (Address x) = Ok x.
Proof.
  destruct x as [role rig name P]. unfold addressEncodable, addressable.
  cbn [idRole idRig idName idPrefix].
  destruct (String.eqb_spec role RoleMayor) as [->|_].
  { cbn [orb]. rewrite !andb_true_iff, !String.eqb_eq.
    intros [[-> ->] ->]. reflexivity. }
  destruct (String.eqb_spec role RoleDeacon) as [->|_].
  { cbn [orb]. rewrite !andb_true_iff, !String.eqb_eq.
    intros [[-> ->] ->]. reflexivity. }
  cbn [orb].
  rewrite !andb_true_iff, !negb_true_iff, !String.eqb_eq.
  intros [[[[Hpre Hrig] Hname] Htrim] Hrole]. revert Htrim Hrole.
  destruct (String.eqb_spec role RoleWitness) as [->|_].
  { cbn [orb]. intros Htrim ->%String.eqb_eq.
    change (Address (mkIdentity RoleWitness rig "" P))
      with (rig ++ "/" ++ "witness") in *.
    destruct (ParseAddress_two reg _ _ "witness" Htrim Hrig eq_refl)
      as [-> Hsplit]; [discriminate|].
    unfold bySegments. by rewrite Hsplit, Hpre. }
  destruct (String.eqb_spec role RoleRefinery) as [->|_].
  { cbn [orb]. intros Htrim ->%String.eqb_eq.
    change (Address (mkIdentity RoleRefinery rig "" P))
      with (rig ++ "/" ++ "refinery") in *.
    destruct (ParseAddress_two reg _ _ "refinery" Htrim Hrig eq_refl)
      as [-> Hsplit]; [discriminate|].
    unfold bySegments. by rewrite Hsplit, Hpre. }
  cbn [orb].
  destruct (String.eqb_spec role RoleCrew) as [->|_].
  { cbn [orb]. rewrite negb_true_iff, String.eqb_neq. intros Htrim Hne.
    change (Address (mkIdentity RoleCrew rig name P))
      with (rig ++ "/" ++ "crew" ++ "/" ++ name) in *.
    destruct (ParseAddress_three reg _ _ "crew" name Htrim Hrig eq_refl
                Hname Hne) as [-> Hsplit].
    unfold bySegments. by rewrite Hsplit, Hpre. }
  destruct (String.eqb_spec role RolePolecat) as [->|_]; [|discriminate].
  cbn [orb]. rewrite negb_true_iff, String.eqb_neq. intros Htrim Hne.
  change (Address (mkIdentity RolePolecat rig name P))
    with (rig ++ "/" ++ "polecats" ++ "/" ++ name) in *.
  destruct (ParseAddress_three reg _ _ "polecats" name Htrim Hrig eq_refl
              Hname Hne) as [-> Hsplit].
  unfold bySegments. by rewrite Hsplit, Hpre.
Qed.

Lemma Split_pieces (s : string) (c : ascii) :
  Forall (fun piece => hasByte c piece = false) (Split s c).
Proof.
  induction s as [|x s IH]; simpl.
  - by constructor.
  - destruct (Ascii.eqb x c) eqn:Hx.
    + by constructor.
    + destruct (Split s c) as [|piece pieces].
      * constructor; [simpl; by rewrite Hx|constructor].
      * inversion IH as [|? ? Hpiece Hpieces]; subst.
        constructor; [simpl; by rewrite Hx, Hpiece|exact Hpieces].
Qed.

(** What [ParseAddress] can return: one of the six roles; a rig and a name
    without a slash; for a town role nothing else; for a rig role the prefix
    that the registry has for the rig; for a singleton no name. *)
Theorem decoded_address_identity (s : string) (x : AgentIdentity) :
  ParseAddress reg s = Ok x →
  In (idRole x)
    [RoleMayor; RoleDeacon; RoleWitness; RoleRefinery; RoleCrew; RolePolecat]
  ∧ hasByte "/" (idRig x) = false
  ∧ hasByte "/" (idName x) = false
  ∧ (idRole x = RoleMayor ∨ idRole x = RoleDeacon →
     idRig x = "" ∧ idName x = "" ∧ idPrefix x = "")
  ∧ (idRole x ≠ RoleMayor → idRole x ≠ RoleDeacon →
     idPrefix x = PrefixForRig reg (idRig x))
  ∧ (idRole x = RoleWitness ∨ idRole x = RoleRefinery → idName x = "").
Proof.
  unfold ParseAddress. cbv zeta.
  destruct (String.eqb (TrimSpace s) ""); [intros [=]|].
  destruct (String.eqb (TrimSpace s) "mayor" || String.eqb (TrimSpace s) "mayor/").
  { intros [= <-]. simpl. unfold_roles. intuition congruence. }
  destruct (String.eqb (TrimSpace s) "deacon"
            || String.eqb (TrimSpace s) "deacon/").
  { intros [= <-]. simpl. unfold_roles. intuition congruence. }
  destruct (String.eqb (TrimSpace s) "overseer"); [intros [=]|].
  pose proof (Split_pieces (TrimSuffix (TrimSpace s) "/") "/") as Hpieces.
  destruct (Split (TrimSuffix (TrimSpace s) "/") "/")
    as [|rig [|name [|third [|fourth rest]]]];
    [intros [=]|intros [=]| | |intros [=]].
  - inversion Hpieces as [|? ? Hrig Hrest]; subst.
    inversion Hrest as [|? ? Hname _]; subst.
    destruct (String.eqb name "witness");
      [intros [= <-]; simpl; unfold_roles; intuition congruence|].
    destruct (String.eqb name "refinery");
      [intros [= <-]; simpl; unfold_roles; intuition congruence|].
    destruct (String.eqb name "crew" || String.eqb name "polecats");
      [intros [=]|].
    intros [= <-]. simpl. unfold_roles. intuition congruence.
  - inversion Hpieces as [|? ? Hrig Hrest]; subst.
    inversion Hrest as [|? ? _ Hrest']; subst.
    inversion Hrest' as [|? ? Hthird _]; subst.
    destruct (String.eqb name "crew");
      [intros [= <-]; simpl; unfold_roles; intuition congruence|].
    destruct (String.eqb name "polecats"); [|intros [=]].
    intros [= <-]. simpl. unfold_roles. intuition congruence.
Qed.

End AddressEncodeDecode.

Lemma address_decodes_back_witness :
  ParseAddress (RegisterPrefix emptyRegistry "gt" "gastown")
    (Address (mkIdentity RoleWitness "gastown" "" "gt"))
  = Ok (mkIdentity RoleWitness "gastown" "" "gt").
Proof. apply address_decodes_back. vm_compute. reflexivity. Defined.

Lemma decoded_address_identity_witness :
  idPrefix (mkIdentity RolePolecat "gastown" "nux" "gt")
  = PrefixForRig (RegisterPrefix emptyRegistry "gt" "gastown") "gastown".
Proof.
  assert (Hx : ParseAddress (RegisterPrefix emptyRegistry "gt" "gastown")
                 "gastown/nux"
               = Ok (mkIdentity RolePolecat "gastown" "nux" "gt"))
    by (vm_compute; reflexivity).
  destruct (decoded_address_identity _ _ _ Hx) as (_ & _ & _ & _ & Hpre & _).
  apply Hpre; discriminate.
Defined.

Section DecodedSession.

Context (reg : Registry).

(** What [ParseSessionName] can return: one of the six roles; a prefix
    without a hyphen that is not [hq]; for the mayor nothing but, possibly,
    the name [overseer]; for the deacon no rig and no name but [boot]; for a
    rig role a non-empty prefix and the rig that the registry has for it,
    with no name for a singleton and a name for crew and polecats. *)
Theorem decoded_session_identity (s : string) (x : AgentIdentity) :
  ParseSessionName reg s = Ok x →
  In (idRole x)
    [RoleMayor; RoleDeacon; RoleWitness; RoleRefinery; RoleCrew; RolePolecat]
  ∧ hasByte "-" (idPrefix x) = false ∧ idPrefix x ≠ "hq"
  ∧ (idRole x = RoleMayor →
     idRig x = "" ∧ idPrefix x = "" ∧ (idName x = "" ∨ idName x = "overseer"))
  ∧ (idRole x = RoleDeacon →
     idRig x = "" ∧ (idName x = "" ∨ idName x = "boot"))
  ∧ (idRole x ≠ RoleMayor → idRole x ≠ RoleDeacon →
     idPrefix x ≠ "" ∧ idRig x = RigForPrefix reg (idPrefix x))
  ∧ (idRole x = RoleWitness ∨ idRole x = RoleRefinery → idName x = "")
  ∧ (idRole x = RoleCrew ∨ idRole x = RolePolecat → idName x ≠ "").
Proof.
  intros Hx.
  destruct (ParseSessionName_cases reg s)
    as [[_ Hhq]|[[_ Hsep]|(P & rest & Hs & HP & Hne & Hq & Hrest & Hrig)]].
  - destruct Hhq as [Hq|[[_ Hq]|[[_ Hq]|[[_ Hq]|[_ Hq]]]]];
      rewrite Hq in Hx; try discriminate Hx;
      injection Hx as <-; simpl; unfold_roles; intuition congruence.
  - rewrite Hsep in Hx. discriminate Hx.
  - rewrite Hrig in Hx. apply rigLevel_shape in Hx.
    destruct Hx as [[-> _]|[[-> _]|[[-> _]|[(name & -> & _ & Hn)|[-> _]]]]];
      simpl; unfold_roles; intuition congruence.
Qed.

End DecodedSession.

Lemma decoded_session_identity_witness :
  idRig (mkIdentity RoleCrew "gastown" "max" "gt")
  = RigForPrefix (RegisterPrefix emptyRegistry "gt" "gastown") "gt".
Proof.
  assert (Hx : ParseSessionName (RegisterPrefix emptyRegistry "gt" "gastown")
                 "gt-crew-max"
               = Ok (mkIdentity RoleCrew "gastown" "max" "gt"))
    by (vm_compute; reflexivity).
  destruct (decoded_session_identity _ _ _ Hx)
    as (_ & _ & _ & _ & _ & Hrig & _).
  apply Hrig; discriminate.
Defined.

(** ** Agent bead identifiers *)

Section BeadIDs.

Import Beads.

Lemma Join_Split (s : string) (c : ascii) :
  Join (Split s c) (String c "") = s.
Proof.
  induction s as [|x s IH]; [reflexivity|].
  pose proof (Split_nonempty s c) as Hne.
  simpl Split. destruct (Ascii.eqb_spec x c) as [->|Hx].
  - destruct (Split s c) as [|piece pieces]; [congruence|].
    cbn [Join]. cbn [Join] in IH. by rewrite IH.
  - destruct (Split s c) as [|piece pieces]; [congruence|].
    cbn [Join]. cbn [Join] in IH.
    destruct pieces; [by rewrite IH|]. simpl. by rewrite <- IH.
Qed.

(** Two hyphen-free heads of one string, each followed by a hyphen, are
    the same. *)
Lemma HasPrefix_same_head (P : string) :
  ∀ Q r : string,
    hasByte "-" P = false → hasByte "-" Q = false →
    HasPrefix (P ++ "-" ++ r) (Q ++ "-") = true → P = Q.
Proof.
  induction P as [|p P IH]; intros [|q Q] r HP HQ.
  - reflexivity.
  - simpl in HQ. apply orb_false_iff in HQ as [Hq _].
    change (HasPrefix ("" ++ "-" ++ r) (String q Q ++ "-"))
      with (if Ascii.eqb "-" q then HasPrefix r (Q ++ "-") else false).
    rewrite Ascii.eqb_sym, Hq. intros [=].
  - simpl in HP. apply orb_false_iff in HP as [Hp _].
    change (HasPrefix (String p P ++ "-" ++ r) ("" ++ "-"))
      with (if Ascii.eqb p "-" then true else false).
    rewrite Hp. intros [=].
  - simpl in HP, HQ.
    apply orb_false_iff in HP as [_ HP]. apply orb_false_iff in HQ as [_ HQ].
    change (HasPrefix (String p P ++ "-" ++ r) (String q Q ++ "-"))
      with (if Ascii.eqb p q
            then HasPrefix (P ++ "-" ++ r) (Q ++ "-") else false).
    destruct (Ascii.eqb_spec p q) as [->|_]; [|intros [=]].
    intros Hpre. f_equal. by apply (IH Q r).
Qed.

Lemma ParseAgentBeadID_gt (rest : string) :
  ParseAgentBeadID ("gt-" ++ rest)
  = match Split rest "-" with
    | [role] => ("", role, "", true)
    | [rig; role] => (rig, role, "", true)
    | rig :: role :: names => (rig, role, Join names "-", true)
    | [] => ("", "", "", false)
    end.
Proof.
  unfold ParseAgentBeadID. simpl HasPrefix. cbn [negb].
  change (TrimPrefix ("gt-" ++ rest) "gt-") with rest.
  destruct (Split rest "-") as [|a [|b [|c [|d names]]]]; reflexivity.
Qed.

(** [ParseAgentBeadID] accepts exactly the identifiers that start with
    [gt-]: after that prefix nothing is refused.  The last branch of its
    switch, which answers [false], is never taken. *)
Theorem bead_id_accepted_iff_gt (id : string) :
  snd (ParseAgentBeadID id) = HasPrefix id "gt-".
Proof.
  destruct (HasPrefix id "gt-") eqn:Hgt.
  - apply HasPrefix_inv in Hgt. rewrite Hgt, ParseAgentBeadID_gt.
    pose proof (Split_nonempty (drop (String.length "gt-") id) "-") as Hne.
    destruct (Split (drop (String.length "gt-") id) "-")
      as [|a [|b [|c names]]]; [congruence|reflexivity..].
  - unfold ParseAgentBeadID. by rewrite Hgt.
Qed.

(** The three shapes of an accepted identifier.  With a hyphen-free
    [role], [gt-role] is a town-level agent; with a hyphen-free [rig] too,
    [gt-rig-role] is a singleton; and [gt-rig-role-name] is a named agent
    whose name is everything after the third hyphen, hyphens included. *)
Theorem bead_id_shapes (rig role name : string) :
  hasByte "-" role = false →
  ParseAgentBeadID ("gt-" ++ role) = ("", role, "", true)
  ∧ (hasByte "-" rig = false →
     ParseAgentBeadID ("gt-" ++ rig ++ "-" ++ role) = (rig, role, "", true)
     ∧ ParseAgentBeadID ("gt-" ++ rig ++ "-" ++ role ++ "-" ++ name)
       = (rig, role, name, true)).
Proof.
  intros Hrole. split; [|intros Hrig; split].
  - by rewrite ParseAgentBeadID_gt, (Split_absent "-" role Hrole).
  - rewrite ParseAgentBeadID_gt.
    change (rig ++ "-" ++ role) with (rig ++ String "-" role).
    by rewrite (Split_first "-" rig _ Hrig), (Split_absent "-" role Hrole).
  - rewrite ParseAgentBeadID_gt.
    change (rig ++ "-" ++ role ++ "-" ++ name)
      with (rig ++ String "-" (role ++ String "-" name)).
    rewrite (Split_first "-" rig _ Hrig), (Split_first "-" role _ Hrole).
    pose proof (Join_Split name "-") as Hjoin.
    pose proof (Split_nonempty name "-") as Hne.
    destruct (Split name "-") as [|n [|m names]]; [congruence| |].
    + simpl in Hjoin. by rewrite Hjoin.
    + by rewrite Hjoin.
Qed.

(** Building an identifier with [AgentBeadID] and parsing it gives the
    parts back, when rig and role have no hyphen; the name may have some.
    A town-level identifier carries no name, so a name passed with an empty
    rig is lost. *)
Theorem bead_id_roundtrip (rig role name : string) :
  hasByte "-" rig = false → hasByte "-" role = false →
  ParseAgentBeadID (AgentBeadID rig role name)
  = (rig, role, if String.eqb rig "" then "" else name, true).
Proof.
  intros Hrig Hrole. unfold AgentBeadID, AgentBeadIDWithPrefix.
  destruct (bead_id_shapes rig role name Hrole) as [Htown Hrigged].
  destruct (Hrigged Hrig) as [Hsingle Hnamed].
  destruct (String.eqb_spec rig "") as [->|_]; [exact Htown|].
  destruct (String.eqb_spec name "") as [->|_]; [exact Hsingle|exact Hnamed].
Qed.

(** A rig name with a hyphen does not survive: its second half is read as
    the role, and the role as the name. *)
Theorem bead_id_hyphen_rig (a b role : string) :
  hasByte "-" a = false → hasByte "-" b = false →
  ParseAgentBeadID (AgentBeadID (a ++ "-" ++ b) role "") = (a, b, role, true).
Proof.
  intros Ha Hb. unfold AgentBeadID, AgentBeadIDWithPrefix.
  destruct (String.eqb_spec (a ++ "-" ++ b) "") as [Hempty|_].
  { apply (f_equal (hasByte "-")) in Hempty.
    rewrite hasByte_app in Hempty. simpl in Hempty.
    rewrite orb_true_r in Hempty. discriminate. }
  rewrite String.eqb_refl.
  destruct (bead_id_shapes a b role Hb) as [_ Hrigged].
  destruct (Hrigged Ha) as [_ Hnamed].
  change ("gt" ++ "-" ++ (a ++ "-" ++ b) ++ "-" ++ role)
    with ("gt-" ++ (a ++ "-" ++ b) ++ "-" ++ role).
  by rewrite !app_assoc.
Qed.

(** An identifier built with a prefix other than [gt] is not recognised:
    [ParseAgentBeadID] fails on it and [IsAgentSessionBead] is false. *)
Theorem bead_id_other_prefix (prefix rig role name : string) :
  hasByte "-" prefix = false → prefix ≠ "gt" →
  ParseAgentBeadID (AgentBeadIDWithPrefix prefix rig role name)
  = ("", "", "", false)
  ∧ IsAgentSessionBead (AgentBeadIDWithPrefix prefix rig role name) = false.
Proof.
  intros Hprefix Hgt.
  assert (Hno : ∀ r, HasPrefix (prefix ++ "-" ++ r) "gt-" = false).
  { intros r. destruct (HasPrefix (prefix ++ "-" ++ r) "gt-") eqn:Hpre;
      [|reflexivity].
    by apply (HasPrefix_same_head prefix "gt" r Hprefix eq_refl) in Hpre. }
  assert (Hparse : ParseAgentBeadID (AgentBeadIDWithPrefix prefix rig role name)
                   = ("", "", "", false)).
  { unfold ParseAgentBeadID, AgentBeadIDWithPrefix.
    destruct (String.eqb rig ""); [by rewrite Hno|].
    destruct (String.eqb name ""); by rewrite Hno. }
  split; [exact Hparse|]. unfold IsAgentSessionBead. by rewrite Hparse.
Qed.

(** [IsAgentSessionBead] on an identifier built with [AgentBeadID] from a
    hyphen-free rig and role tells whether the role is one of the six agent
    roles; in particular it holds of all six canonical identifiers. *)
Theorem session_bead_iff_known_role (rig role name : string) :
  hasByte "-" rig = false → hasByte "-" role = false →
  IsAgentSessionBead (AgentBeadID rig role name)
  = bool_decide
      (In role ["mayor"; "deacon"; "witness"; "refinery"; "crew"; "polecat"])
  ∧ IsAgentSessionBead MayorBeadID = true
  ∧ IsAgentSessionBead DeaconBeadID = true
  ∧ IsAgentSessionBead (WitnessBeadID rig) = true
  ∧ IsAgentSessionBead (RefineryBeadID rig) = true
  ∧ IsAgentSessionBead (CrewBeadID rig name) = true
  ∧ IsAgentSessionBead (PolecatBeadID rig name) = true.
Proof.
  intros Hrig Hrole.
  assert (Hsession : ∀ r, hasByte "-" r = false →
            IsAgentSessionBead (AgentBeadID rig r name)
            = (String.eqb r "mayor" || String.eqb r "deacon"
               || String.eqb r "witness" || String.eqb r "refinery"
               || String.eqb r "crew" || String.eqb r "polecat")).
  { intros r Hr. unfold IsAgentSessionBead.
    by rewrite (bead_id_roundtrip rig r name Hrig Hr). }
  assert (Hsingle : ∀ r, hasByte "-" r = false →
            IsAgentSessionBead (AgentBeadID rig r "")
            = (String.eqb r "mayor" || String.eqb r "deacon"
               || String.eqb r "witness" || String.eqb r "refinery"
               || String.eqb r "crew" || String.eqb r "polecat")).
  { intros r Hr. unfold IsAgentSessionBead.
    by rewrite (bead_id_roundtrip rig r "" Hrig Hr). }
  split; [|repeat split; try reflexivity].
  - rewrite (Hsession role Hrole). simpl In.
    destruct (String.eqb_spec role "mayor") as [->|];
      [by rewrite bool_decide_eq_true_2 by auto|].
    destruct (String.eqb_spec role "deacon") as [->|];
      [by rewrite bool_decide_eq_true_2 by auto|].
    destruct (String.eqb_spec role "witness") as [->|];
      [by rewrite bool_decide_eq_true_2 by auto|].
    destruct (String.eqb_spec role "refinery") as [->|];
      [by rewrite bool_decide_eq_true_2 by auto|].
    destruct (String.eqb_spec role "crew") as [->|];
      [by rewrite bool_decide_eq_true_2 by auto 6|].
    destruct (String.eqb_spec role "polecat") as [->|];
      [by rewrite bool_decide_eq_true_2 by auto 7|].
    rewrite bool_decide_eq_false_2; [reflexivity|]. intuition congruence.
  - exact (Hsingle "witness" eq_refl).
  - exact (Hsingle "refinery" eq_refl).
  - exact (Hsession "crew" eq_refl).
  - exact (Hsession "polecat" eq_refl).
Qed.

End BeadIDs.

Lemma bead_id_shapes_witness :
  Beads.ParseAgentBeadID "gt-gastown-polecat-my-agent-name"
  = ("gastown", "polecat", "my-agent-name", true).
Proof.
  destruct (bead_id_shapes "gastown" "polecat" "my-agent-name" eq_refl)
    as [_ Hrig].
  destruct (Hrig eq_refl) as [_ Hnamed]. exact Hnamed.
Defined.

Lemma bead_id_roundtrip_witness :
  Beads.ParseAgentBeadID (Beads.AgentBeadID "gastown" "crew" "max")
  = ("gastown", "crew", "max", true).
Proof. exact (bead_id_roundtrip "gastown" "crew" "max" eq_refl eq_refl). Defined.

Lemma bead_id_hyphen_rig_witness :
  Beads.ParseAgentBeadID (Beads.AgentBeadID "my-rig" "witness" "")
  = ("my", "rig", "witness", true).
Proof. exact (bead_id_hyphen_rig "my" "rig" "witness" eq_refl eq_refl). Defined.

Lemma bead_id_other_prefix_witness :
  Beads.IsAgentSessionBead (Beads.WitnessBeadIDWithPrefix "bd" "beads") = false.
Proof.
  assert (Hbd : "bd" ≠ "gt") by discriminate.
  exact (proj2 (bead_id_other_prefix "bd" "beads" "witness" ""
                  eq_refl Hbd)).
Defined.

Lemma session_bead_iff_known_role_witness :
  Beads.IsAgentSessionBead (Beads.CrewBeadID "gastown" "joe") = true.
Proof.
  destruct (session_bead_iff_known_role "gastown" "crew" "joe"
              eq_refl eq_refl) as (_ & _ & _ & _ & _ & Hcrew & _).
  exact Hcrew.
Defined.

(** ** Patrol receipts *)

Section PatrolReceipts.

Import Witness.

(** A receipt always recommends an action: the zombie's action without its
    surrounding white space, or [investigate] when that is empty; so the
    recommended action is never empty and has no white space around it.  The
    verdict is [orphan] exactly when the hook bead is blank and the agent is
    not working, running or spawning, and [stale] otherwise.  The rig, the
    polecat and the evidence are copied as they are, and an error adds its
    message and changes nothing else. *)
Theorem receipt_of_zombie (rigName : string) (z : ZombieResult) :
  let receipt := BuildPatrolReceipt rigName z in
  rcRecommendedAction receipt ≠ ""
  ∧ TrimSpace (rcRecommendedAction receipt) = rcRecommendedAction receipt
  ∧ rcRecommendedAction receipt
    = (if String.eqb (TrimSpace (zAction z)) "" then "investigate"
       else TrimSpace (zAction z))
  ∧ (rcVerdict receipt = PatrolVerdictOrphan
     ↔ TrimSpace (zHookBead z) = ""
       ∧ ¬ In (zAgentState z) ["working"; "running"; "spawning"])
  ∧ (rcVerdict receipt = PatrolVerdictStale
     ∨ rcVerdict receipt = PatrolVerdictOrphan)
  ∧ rcRig receipt = rigName
  ∧ rcPolecat receipt = zPolecatName z
  ∧ rcEvidence receipt
    = mkEvidence (zAgentState z) (zHookBead z) (zBeadRecovered z)
        (default "" (zError z)).
Proof.
  cbv zeta.
  assert (Haction : rcRecommendedAction (BuildPatrolReceipt rigName z)
            = (if String.eqb (TrimSpace (zAction z)) "" then "investigate"
               else TrimSpace (zAction z))).
  { unfold BuildPatrolReceipt. by destruct (zError z). }
  assert (Hverdict : rcVerdict (BuildPatrolReceipt rigName z)
                     = receiptVerdictForZombie z).
  { unfold BuildPatrolReceipt. by destruct (zError z). }
  rewrite Haction, Hverdict.
  split; [|split; [|split; [reflexivity|split; [|split]]]].
  - destruct (String.eqb_spec (TrimSpace (zAction z)) ""); [discriminate|done].
  - destruct (String.eqb_spec (TrimSpace (zAction z)) "");
      [reflexivity|apply TrimSpace_idempotent].
  - unfold receiptVerdictForZombie, PatrolVerdictStale, PatrolVerdictOrphan.
    simpl In.
    destruct (String.eqb_spec (TrimSpace (zHookBead z)) ""); cbn [negb];
      [|split; [intros [=]|tauto]].
    destruct (String.eqb_spec (zAgentState z) "working");
      [split; [intros [=]|intuition congruence]|].
    destruct (String.eqb_spec (zAgentState z) "running");
      [split; [intros [=]|intuition congruence]|].
    destruct (String.eqb_spec (zAgentState z) "spawning");
      [split; [intros [=]|intuition congruence]|].
    cbn [orb]. intuition congruence.
  - unfold receiptVerdictForZombie. destruct_ifs; auto.
  - unfold BuildPatrolReceipt. by destruct (zError z).
Qed.

Lemma fold_append_map {A B : Type} (f : A → B) (l : list A) (acc : list B) :
  fold_left (fun out a => (out ++ [f a])%list) l acc = (acc ++ map f l)%list.
Proof.
  revert acc. induction l as [|a l IH]; intros acc; simpl.
  - by rewrite List.app_nil_r.
  - by rewrite IH, <- List.app_assoc.
Qed.

(** [BuildPatrolReceipts] answers [nil] exactly for a [nil] result or one
    without zombies; otherwise it has one receipt per zombie, in the order
    of the zombies, each built by [BuildPatrolReceipt] for the same rig. *)
Theorem receipts_of_zombies (rigName : string)
    (result : option (list ZombieResult)) :
  (BuildPatrolReceipts rigName result = None
   ↔ result = None ∨ result = Some [])
  ∧ (∀ zombies : list ZombieResult,
       result = Some zombies → zombies ≠ [] →
       BuildPatrolReceipts rigName result
       = Some (map (BuildPatrolReceipt rigName) zombies)
       ∧ ∀ (i : nat) (zombie : ZombieResult),
           zombies !! i = Some zombie →
           map (BuildPatrolReceipt rigName) zombies !! i
           = Some (BuildPatrolReceipt rigName zombie)).
Proof.
  split.
  - destruct result as [[|z zs]|]; simpl; split; auto; try discriminate.
    intros [H|H]; discriminate H.
  - intros zombies -> Hne. destruct zombies as [|z zs]; [congruence|].
    split.
    + unfold BuildPatrolReceipts. simpl Nat.eqb. cbv iota.
      by rewrite fold_append_map.
    + intros i zombie Hi.
      change (map (BuildPatrolReceipt rigName) (z :: zs))
        with (BuildPatrolReceipt rigName <$> (z :: zs)).
      by rewrite list_lookup_fmap, Hi.
Qed.

End PatrolReceipts.

Lemma receipts_of_zombies_witness :
  Witness.BuildPatrolReceipts "gastown"
    (Some [Witness.mkZombie "atlas" "working" "gt-123" "auto-nuked" false None])
  = Some [Witness.mkReceipt "gastown" "atlas" "stale" "auto-nuked"
            (Witness.mkEvidence "working" "gt-123" false "")].
Proof.
  destruct (receipts_of_zombies "gastown"
              (Some [Witness.mkZombie "atlas" "working" "gt-123" "auto-nuked"
                       false None])) as [_ Hsome].
  destruct (Hsome _ eq_refl) as [Hmap _]; [discriminate|].
  rewrite Hmap. reflexivity.
Defined.

(** ** SQL escaping and CSV lines *)

Section WantedBoard.

Import Wl.

Lemma escape_cons_quote (s : string) :
  escapeSQLString (String "'" s) = String "'" (String "'" (escapeSQLString s)).
Proof. reflexivity. Qed.

Lemma escape_cons_other (c : ascii) (s : string) :
  Ascii.eqb c "'" = false →
  escapeSQLString (String c s) = String c (escapeSQLString s).
Proof. intros Hc. unfold escapeSQLString. simpl. by rewrite Hc. Qed.

Lemma escape_injective (s : string) :
  ∀ t : string, escapeSQLString s = escapeSQLString t → s = t.
Proof.
  induction s as [|c s IH]; intros [|d t].
  - reflexivity.
  - destruct (Ascii.eqb_spec d "'") as [->|Hd%Ascii.eqb_neq].
    + rewrite escape_cons_quote. intros [=].
    + rewrite (escape_cons_other d t Hd). intros [=].
  - destruct (Ascii.eqb_spec c "'") as [->|Hc%Ascii.eqb_neq].
    + rewrite escape_cons_quote. intros [=].
    + rewrite (escape_cons_other c s Hc). intros [=].
  - destruct (Ascii.eqb_spec c "'") as [->|Hc];
      destruct (Ascii.eqb_spec d "'") as [->|Hd].
    + rewrite !escape_cons_quote. intros [= Heq]. f_equal. by apply IH.
    + apply Ascii.eqb_neq in Hd.
      rewrite escape_cons_quote, (escape_cons_other d t Hd).
      intros [= <-]. by rewrite Ascii.eqb_refl in Hd.
    + apply Ascii.eqb_neq in Hc.
      rewrite escape_cons_quote, (escape_cons_other c s Hc).
      intros [= ->]. by rewrite Ascii.eqb_refl in Hc.
    + apply Ascii.eqb_neq in Hc. apply Ascii.eqb_neq in Hd.
      rewrite (escape_cons_other c s Hc), (escape_cons_other d t Hd).
      intros [= -> Heq]. f_equal. by apply IH.
Qed.

(** [escapeSQLString] doubles every single quote and touches nothing else:
    in its result the quotes come in pairs, so none can end a single-quoted
    literal; the result is as much longer as there are quotes; a string
    without quotes is unchanged; different strings stay different; and
    [EscapeSQL] of package [wasteland] is the same function. *)
Theorem escape_doubles_quotes (s : string) :
  pairedQuotes (escapeSQLString s) = true
  ∧ countByte "'" (escapeSQLString s) = (2 * countByte "'" s)%nat
  ∧ String.length (escapeSQLString s)
    = (String.length s + countByte "'" s)%nat
  ∧ (hasByte "'" s = false → escapeSQLString s = s)
  ∧ (∀ t : string, escapeSQLString s = escapeSQLString t → s = t)
  ∧ EscapeSQL s = escapeSQLString s.
Proof.
  split; [|split; [|split; [|split; [|split; [apply escape_injective|done]]]]].
  - induction s as [|c s IH]; [reflexivity|].
    destruct (Ascii.eqb_spec c "'") as [->|Hc%Ascii.eqb_neq].
    + rewrite escape_cons_quote. exact IH.
    + rewrite (escape_cons_other c s Hc). simpl. by rewrite Hc.
  - induction s as [|c s IH]; [reflexivity|].
    destruct (Ascii.eqb_spec c "'") as [->|Hc%Ascii.eqb_neq].
    + rewrite escape_cons_quote. simpl. rewrite IH. lia.
    + rewrite (escape_cons_other c s Hc). simpl. rewrite Hc, IH. lia.
  - induction s as [|c s IH]; [reflexivity|].
    destruct (Ascii.eqb_spec c "'") as [->|Hc%Ascii.eqb_neq].
    + rewrite escape_cons_quote. simpl. rewrite IH. lia.
    + rewrite (escape_cons_other c s Hc). simpl. rewrite Hc, IH. lia.
  - induction s as [|c s IH]; [reflexivity|].
    simpl hasByte. intros [Hc Hs]%orb_false_iff.
    rewrite (escape_cons_other c s Hc). by rewrite (IH Hs).
Qed.

(** The loop only ever appends to the fields it has. *)
Lemma parseCSVFrom_fields (line : string) :
  ∀ (inQuote : bool) (field : string) (pre fields : list string),
    parseCSVFrom line inQuote field (pre ++ fields)%list
    = (pre ++ parseCSVFrom line inQuote field fields)%list.
Proof.
  induction line as [line IH] using (induction_ltof1 _ String.length).
  unfold ltof in IH.
  intros inQuote field pre fields. destruct line as [|ch rest]; simpl.
  - by rewrite List.app_assoc.
  - assert (Hrest : ∀ q f fs, parseCSVFrom rest q f (pre ++ fs)%list
                              = (pre ++ parseCSVFrom rest q f fs)%list)
      by (intros; apply IH; simpl; lia).
    destruct (Ascii.eqb ch DQUOTE && negb inQuote); [apply Hrest|].
    destruct (Ascii.eqb ch DQUOTE && inQuote).
    + destruct rest as [|next rest']; [apply Hrest|].
      destruct (Ascii.eqb next DQUOTE); [|apply Hrest].
      apply IH. simpl. lia.
    + destruct (Ascii.eqb ch "," && negb inQuote); [|apply Hrest].
      by rewrite <- List.app_assoc, Hrest.
Qed.

(** Outside quotes, on a line without quotes, the loop is [strings.Split]
    at the commas, the first piece going after what the builder holds. *)
Lemma parseCSVFrom_plain (line : string) :
  ∀ field : string,
    hasByte DQUOTE line = false →
    parseCSVFrom line false field []
    = match Split line "," with
      | piece :: pieces => (field ++ piece) :: pieces
      | [] => [field]
      end.
Proof.
  induction line as [|ch rest IH]; intros field Hno.
  - simpl. by rewrite app_nil_r.
  - simpl in Hno. apply orb_false_iff in Hno as [Hch Hrest].
    simpl. rewrite Hch. cbn [andb].
    destruct (Ascii.eqb ch ",") eqn:Hcomma; cbn [andb negb].
    + pose proof (parseCSVFrom_fields rest false "" [field] []) as Hfields.
      simpl in Hfields. rewrite Hfields, (IH "" Hrest).
      pose proof (Split_nonempty rest ",") as Hne.
      rewrite app_nil_r. by destruct (Split rest ",").
    + rewrite (IH _ Hrest).
      pose proof (Split_nonempty rest ",") as Hne.
      destruct (Split rest ",") as [|piece pieces]; [congruence|].
      by rewrite app_assoc.
Qed.

(** Inside quotes, bytes other than the quote go to the builder, commas
    included. *)
Lemma parseCSVFrom_quoted (body : string) :
  ∀ (rest field : string) (fields : list string),
    hasByte DQUOTE body = false →
    parseCSVFrom (body ++ rest) true field fields
    = parseCSVFrom rest true (field ++ body) fields.
Proof.
  induction body as [|ch body IH]; intros rest field fields Hno.
  - simpl. by rewrite app_nil_r.
  - simpl in Hno. apply orb_false_iff in Hno as [Hch Hbody].
    simpl. rewrite Hch. cbn [andb negb]. rewrite andb_false_r.
    rewrite (IH _ _ _ Hbody). by rewrite app_assoc.
Qed.

(** [parseCSVLine] always returns at least one field.  On a line without
    double quotes it is [strings.Split] at the commas.  A quoted field
    without inner quotes is taken whole, commas included, both at the end of
    the line and before a comma; and inside quotes a doubled quote stands
    for one quote. *)
Theorem csv_line_fields (line body more : string) :
  parseCSVLine line ≠ []
  ∧ (hasByte DQUOTE line = false → parseCSVLine line = Split line ",")
  ∧ (hasByte DQUOTE body = false →
     parseCSVLine (String DQUOTE body ++ String DQUOTE "") = [body]
     ∧ parseCSVLine (String DQUOTE body ++ String DQUOTE (String "," line))
       = body :: parseCSVLine line
     ∧ (hasByte DQUOTE more = false →
        parseCSVLine
          (String DQUOTE body
           ++ String DQUOTE (String DQUOTE more) ++ String DQUOTE "")
        = [body ++ String DQUOTE more])).
Proof.
  split; [|split].
  - unfold parseCSVLine.
    assert (Hne : ∀ l q f fs, parseCSVFrom l q f fs ≠ []).
    { intros l. induction l as [l IH] using (induction_ltof1 _ String.length).
      unfold ltof in IH. intros q f fs. destruct l as [|ch rest]; simpl.
      - by destruct fs.
      - assert (Hrest : ∀ q f fs, parseCSVFrom rest q f fs ≠ [])
          by (intros; apply IH; simpl; lia).
        destruct (Ascii.eqb ch DQUOTE && negb q); [apply Hrest|].
        destruct (Ascii.eqb ch DQUOTE && q).
        + destruct rest as [|next rest']; [apply Hrest|].
          destruct (Ascii.eqb next DQUOTE); [|apply Hrest].
          apply IH. simpl. lia.
        + destruct (Ascii.eqb ch "," && negb q); apply Hrest. }
    apply Hne.
  - intros Hno. unfold parseCSVLine. rewrite (parseCSVFrom_plain line "" Hno).
    pose proof (Split_nonempty line ",") as Hne.
    by destruct (Split line ",").
  - intros Hbody. unfold parseCSVLine.
    change (String DQUOTE body ++ ?r) with (String DQUOTE (body ++ r)).
    split; [|split].
    + cbn [parseCSVFrom]. change (Ascii.eqb DQUOTE DQUOTE) with true.
      cbn [andb negb].
      by rewrite (parseCSVFrom_quoted body _ "" [] Hbody).
    + change (String DQUOTE body ++ String DQUOTE (String "," line))
        with (String DQUOTE (body ++ String DQUOTE (String "," line))).
      cbn [parseCSVFrom]. change (Ascii.eqb DQUOTE DQUOTE) with true.
      cbn [andb negb].
      rewrite (parseCSVFrom_quoted body _ "" [] Hbody).
      cbn [parseCSVFrom]. change (Ascii.eqb DQUOTE DQUOTE) with true.
      cbn [andb negb].
      change (Ascii.eqb "," DQUOTE) with false. cbn [andb negb].
      change (Ascii.eqb "," ",") with true. cbn [andb negb].
      exact (parseCSVFrom_fields line false "" [body] []).
    + intros Hmore.
      change (String DQUOTE body
              ++ String DQUOTE (String DQUOTE more) ++ String DQUOTE "")
        with (String DQUOTE
                (body ++ String DQUOTE
                           (String DQUOTE (more ++ String DQUOTE "")))).
      cbn [parseCSVFrom]. change (Ascii.eqb DQUOTE DQUOTE) with true.
      cbn [andb negb].
      rewrite (parseCSVFrom_quoted body _ "" [] Hbody).
      change (String DQUOTE (String DQUOTE more) ++ String DQUOTE "")
        with (String DQUOTE (String DQUOTE (more ++ String DQUOTE ""))).
      cbn [parseCSVFrom]. change (Ascii.eqb DQUOTE DQUOTE) with true.
      cbn [andb negb].
      rewrite (parseCSVFrom_quoted more _ _ [] Hmore).
      cbn [parseCSVFrom]. change (Ascii.eqb DQUOTE DQUOTE) with true.
      cbn [andb negb]. simpl. by rewrite app_assoc.
Qed.

End WantedBoard.

Lemma escape_doubles_quotes_witness :
  Wl.escapeSQLString "it's" = "it''s"
  ∧ Wl.escapeSQLString "plain" = "plain".
Proof.
  destruct (escape_doubles_quotes "plain") as (_ & _ & _ & Hsame & _).
  split; [reflexivity|]. apply Hsame. reflexivity.
Defined.

Lemma csv_line_fields_witness :
  Wl.parseCSVLine "w-1,Fix bug,gastown" = ["w-1"; "Fix bug"; "gastown"].
Proof.
  destruct (csv_line_fields "w-1,Fix bug,gastown" "" "") as (_ & Hplain & _).
  rewrite Hplain; reflexivity.
Defined.

Section CSVRows.

Import Wl.

Lemma fold_rows (lines : list string) :
  ∀ rows : list (list string),
    fold_left
      (fun rows line =>
         if String.eqb line "" then rows
         else (rows ++ [parseCSVLine line])%list)
      lines rows
    = (rows ++ map parseCSVLine
                 (List.filter (fun line => negb (String.eqb line "")) lines))%list.
Proof.
  induction lines as [|line lines IH]; intros rows; simpl.
  - by rewrite List.app_nil_r.
  - rewrite IH. destruct (String.eqb line ""); simpl; [reflexivity|].
    by rewrite <- List.app_assoc.
Qed.

(** [parseCSV] parses the non-empty lines of the trimmed data, in order, and
    skips the empty ones: so it has no more rows than the data has lines,
    every row has at least one field, and data that is empty or all white
    space gives no row at all. *)
Theorem csv_rows (data : string) :
  parseCSV data
  = map parseCSVLine
      (List.filter (fun line => negb (String.eqb line ""))
         (Split (TrimSpace data) LF))
  ∧ (List.length (parseCSV data)
     ≤ List.length (Split (TrimSpace data) LF))%nat
  ∧ Forall (fun row => row ≠ []) (parseCSV data)
  ∧ (allASCIISpace data = true → parseCSV data = []).
Proof.
  assert (Hrows : parseCSV data
            = map parseCSVLine
                (List.filter (fun line => negb (String.eqb line ""))
                   (Split (TrimSpace data) LF)))
    by (unfold parseCSV; by rewrite fold_rows).
  split; [exact Hrows|]. rewrite Hrows. split; [|split].
  - rewrite List.length_map. apply List.filter_length_le.
  - apply Forall_forall. intros row Hin.
    apply list_elem_of_In, in_map_iff in Hin as (line & <- & _).
    apply (csv_line_fields line "" "").
  - intros Hblank. by rewrite (TrimSpace_spaces data Hblank).
Qed.

End CSVRows.

Lemma csv_rows_witness :
  Wl.parseCSV (String LF (String LF " ")) = [].
Proof.
  destruct (csv_rows (String LF (String LF " "))) as (_ & _ & _ & Hblank).
  apply Hblank. reflexivity.
Defined.

(** ** Agent descriptions *)

Section TrimFacts.

Lemma Split_app_sep (c : ascii) (a b : string) :
  Split (a ++ String c b) c = (Split a c ++ Split b c)%list.
Proof.
  induction a as [|x a IH]; simpl.
  - by rewrite Ascii.eqb_refl.
  - rewrite IH. destruct (Ascii.eqb x c); [reflexivity|].
    pose proof (Split_nonempty a c) as Hne.
    by destruct (Split a c).
Qed.

(** [spaceWidth] reads three bytes at most. *)
Lemma spaceWidth_app3 (a b : string) :
  (3 ≤ String.length a)%nat → spaceWidth (a ++ b) = spaceWidth a.
Proof.
  destruct a as [|c0 [|c1 [|c2 a]]]; simpl; intros Ha;
    [lia..|reflexivity].
Qed.

Lemma lastSpaceWidth_app3 (a b : string) :
  (3 ≤ String.length b)%nat → lastSpaceWidth (a ++ b) = lastSpaceWidth b.
Proof.
  intros Hb. unfold lastSpaceWidth. rewrite length_app.
  assert (Hdrop : ∀ k, (k ≤ 3)%nat →
            drop (String.length a + String.length b - k) (a ++ b)
            = drop (String.length b - k) b).
  { intros k Hk.
    replace (String.length a + String.length b - k)%nat
      with (String.length a + (String.length b - k))%nat by lia.
    apply drop_app_plus. }
  rewrite (Hdrop 1%nat), (Hdrop 2%nat), (Hdrop 3%nat) by lia.
  destruct (Nat.leb_spec 1 (String.length a + String.length b)); [|lia].
  destruct (Nat.leb_spec 2 (String.length a + String.length b)); [|lia].
  destruct (Nat.leb_spec 3 (String.length a + String.length b)); [|lia].
  destruct (Nat.leb_spec 1 (String.length b)); [|lia].
  destruct (Nat.leb_spec 2 (String.length b)); [|lia].
  destruct (Nat.leb_spec 3 (String.length b)); [|lia].
  reflexivity.
Qed.

(** White space at the end of a value is still the white space at the end
    of the line [key: value]. *)
Lemma lastSpaceWidth_field (a v : string) :
  v ≠ "" → lastSpaceWidth (a ++ ": " ++ v) = lastSpaceWidth v.
Proof.
  intros Hv. rewrite (lastSpaceWidth_app3 a (": " ++ v))
    by (destruct v; [congruence|simpl; lia]).
  destruct v as [|x [|y [|z v]]]; [congruence| | |].
  - unfold lastSpaceWidth. simpl. destruct (isASCIISpace x); reflexivity.
  - unfold lastSpaceWidth. simpl.
    destruct (isASCIISpace y); [reflexivity|].
    destruct (isASCIISpace x); [reflexivity|]. reflexivity.
  - apply (lastSpaceWidth_app3 ": "). simpl. lia.
Qed.

Lemma TrimSpace_clean (v : string) :
  TrimSpace v = v → spaceWidth v = 0%nat ∧ lastSpaceWidth v = 0%nat.
Proof. intros Hv. rewrite <- Hv. apply TrimSpace_no_space. Qed.

Lemma TrimSpace_after_space (v : string) :
  TrimSpace (String " " v) = TrimSpace v.
Proof. reflexivity. Qed.

Lemma trimLeftFuel_suffix (fuel : nat) :
  ∀ s : string, ∃ lead : string, s = lead ++ trimLeftFuel fuel s.
Proof.
  induction fuel as [|fuel IH]; intros s.
  - by exists "".
  - cbn [trimLeftFuel]. destruct (spaceWidth s) as [|w]; [by exists ""|].
    destruct (IH (drop (S w) s)) as [lead Hlead].
    exists (take (S w) s ++ lead).
    rewrite app_assoc, <- Hlead. by rewrite take_drop.
Qed.

(** [TrimSpace] cuts a piece out of its argument. *)
Lemma TrimSpace_inside (s : string) :
  ∃ lead tail : string, s = lead ++ TrimSpace s ++ tail.
Proof.
  unfold TrimSpace, TrimLeftSpace, TrimRightSpace.
  destruct (trimLeftFuel_suffix (String.length s) s) as [lead Hlead].
  destruct (trimRightFuel_prefix
              (String.length (trimLeftFuel (String.length s) s))
              (trimLeftFuel (String.length s) s)) as [tail Htail].
  exists lead, tail. by rewrite <- Htail.
Qed.

Lemma TrimSpace_hasByte (c : ascii) (s : string) :
  hasByte c s = false → hasByte c (TrimSpace s) = false.
Proof.
  destruct (TrimSpace_inside s) as (lead & tail & Hs). intros Hno.
  rewrite Hs, !hasByte_app in Hno.
  by apply orb_false_iff in Hno as [_ [Hmid _]%orb_false_iff].
Qed.

End TrimFacts.

Section AgentDescriptions.

Import Beads.

Context (unicodeLower : string → string).

Local Abbreviation parseLine := (Beads.parseLine unicodeLower).
Local Abbreviation parseLines := (Beads.parseLines unicodeLower).
Local Abbreviation ParseAgentFields := (Beads.ParseAgentFields unicodeLower).

(** The slices of a line at its colon are always in range. *)
Lemma parseLine_total (fields : AgentFields) (line : string) :
  ∃ fields' : AgentFields, parseLine fields line = Some fields'.
Proof.
  unfold Beads.parseLine. cbv zeta.
  destruct (String.eqb (TrimSpace line) ""); [eauto|].
  destruct (Z.eqb_spec (Index (TrimSpace line) ":") (-1)) as [|Hidx]; [eauto|].
  destruct (Index_byte_range ":" (TrimSpace line)) as [Hrange|[_ Hnone]];
    [|congruence].
  unfold sliceTo, sliceFrom.
  destruct (Z.leb_spec 0 (Index (TrimSpace line) ":")); [|lia].
  destruct (Z.leb_spec (Index (TrimSpace line) ":") (len (TrimSpace line)));
    [|lia].
  destruct (Z.leb_spec 0 (Index (TrimSpace line) ":" + 1)); [|lia].
  destruct (Z.leb_spec (Index (TrimSpace line) ":" + 1) (len (TrimSpace line)));
    [|lia].
  simpl. eauto.
Qed.

Lemma parseLines_total (lines : list string) :
  ∀ fields : AgentFields,
    ∃ fields' : AgentFields, parseLines fields lines = Some fields'.
Proof.
  induction lines as [|line lines IH]; intros fields; simpl; [eauto|].
  destruct (parseLine_total fields line) as [fields' ->]. apply IH.
Qed.

Lemma parseLines_app (before after : list string) :
  ∀ fields : AgentFields,
    parseLines fields (before ++ after)%list
    = match parseLines fields before with
      | Some fields' => parseLines fields' after
      | None => None
      end.
Proof.
  induction before as [|line before IH]; intros fields; simpl; [reflexivity|].
  destruct (parseLine fields line); [apply IH|reflexivity].
Qed.

(** A line without a colon assigns nothing. *)
Lemma parseLine_no_colon (fields : AgentFields) (line : string) :
  hasByte ":" line = false → parseLine fields line = Some fields.
Proof.
  intros Hno%(TrimSpace_hasByte ":"). unfold Beads.parseLine. cbv zeta.
  rewrite (Index_byte_absent ":" _ Hno).
  by destruct (String.eqb (TrimSpace line) "").
Qed.

(** A line [key: value] with one of the written keys and a clean, non-empty
    value assigns the value to the key's field. *)
Lemma parseLine_field (fields : AgentFields) (key v : string) :
  (3 ≤ String.length key)%nat → spaceWidth key = 0%nat →
  hasByte ":" key = false → TrimSpace key = key →
  isASCII key = true → lowerASCII key = key →
  cleanValue v = true → v ≠ "" →
  parseLine fields (key ++ ": " ++ v) = Some (setField key v fields).
Proof.
  intros Hlen Hlead Hcolon Hkey Hascii Hlower Hclean Hv.
  unfold cleanValue in Hclean.
  apply andb_true_iff in Hclean as [[_ Htrim%String.eqb_eq]%andb_true_iff
                                      Hnull%negb_true_iff].
  destruct (TrimSpace_clean v Htrim) as [_ Hlast].
  assert (Hline : TrimSpace (key ++ ": " ++ v) = key ++ ": " ++ v).
  { apply TrimSpace_fixed.
    - by rewrite spaceWidth_app3.
    - by rewrite lastSpaceWidth_field. }
  assert (Hne : String.eqb (key ++ ": " ++ v) "" = false).
  { destruct key; [simpl in Hlen; lia|reflexivity]. }
  pose proof (Index_byte_first ":" key (" " ++ v) Hcolon) as Hidx.
  change (String ":" (" " ++ v)) with (": " ++ v) in Hidx.
  change (String ":" "") with ":" in Hidx.
  pose proof (sliceTo_app key (": " ++ v)) as Hto.
  pose proof (sliceFrom_app (key ++ ":") (" " ++ v)) as Hfrom.
  rewrite app_assoc, len_app in Hfrom. change (len ":") with 1 in Hfrom.
  change (":" ++ " " ++ v) with (": " ++ v) in Hfrom.
  unfold Beads.parseLine. cbv zeta.
  rewrite Hline, Hne, Hidx, Hto, Hfrom.
  destruct (Z.eqb_spec (len key) (-1)) as [Hneg|_]; [unfold len in Hneg; lia|].
  change (" " ++ v) with (String " " v).
  rewrite TrimSpace_after_space, Htrim, Hkey, Hnull.
  destruct (String.eqb_spec v ""); [congruence|]. cbn [orb].
  unfold ToLower. by rewrite Hascii, Hlower.
Qed.

(** The white-space characters of a clean value, and the line feed. *)
Lemma cleanValue_no_LF (v : string) : cleanValue v = true → hasByte LF v = false.
Proof.
  unfold cleanValue. rewrite !andb_true_iff, negb_true_iff. tauto.
Qed.

(** The six lines that [FormatAgentDescription] writes set the six fields
    again, whatever the fields were before. *)
Lemma six_lines_set_fields (f before : AgentFields) :
  cleanFields f = true →
  parseLines before
    [""; "role_type: " ++ RoleType f;
     (if negb (String.eqb (Rig f) "") then "rig: " ++ Rig f else "rig: null");
     "agent_state: " ++ AgentState f;
     (if negb (String.eqb (HookBead f) "") then "hook_bead: " ++ HookBead f
      else "hook_bead: null");
     (if negb (String.eqb (RoleBead f) "") then "role_bead: " ++ RoleBead f
      else "role_bead: null");
     (if negb (String.eqb (CleanupStatus f) "")
      then "cleanup_status: " ++ CleanupStatus f
      else "cleanup_status: null")]
  = Some f.
Proof.
  destruct f as [v1 v2 v3 v4 v5 v6]. unfold cleanFields.
  cbn [RoleType Rig AgentState HookBead RoleBead CleanupStatus].
  rewrite !andb_true_iff. intros [[[[[H1 H2] H3] H4] H5] H6].
  assert (Hkey : ∀ key v fields,
            In key ["role_type"; "rig"; "agent_state"; "hook_bead";
                    "role_bead"; "cleanup_status"] →
            cleanValue v = true → v ≠ "" →
            parseLine fields (key ++ ": " ++ v)
            = Some (setField key v fields)).
  { intros key v fields Hin Hc Hv. simpl in Hin.
    repeat (destruct Hin as [<-|Hin];
            [apply parseLine_field;
             [simpl; lia|reflexivity|reflexivity|reflexivity|reflexivity
             |reflexivity|exact Hc|exact Hv]|]).
    contradiction. }
  assert (Hwritten : ∀ key v fields,
            In key ["role_type"; "agent_state"] → cleanValue v = true →
            parseLine fields (key ++ ": " ++ v)
            = Some (setField key v fields)).
  { intros key v fields Hin Hc.
    destruct (String.eqb_spec v "") as [->|Hv].
    - simpl in Hin. destruct Hin as [<-|[<-|[]]]; reflexivity.
    - apply Hkey; [simpl in *; tauto|exact Hc|exact Hv]. }
  assert (Hnullable : ∀ key v fields,
            In key ["rig"; "hook_bead"; "role_bead"; "cleanup_status"] →
            cleanValue v = true →
            parseLine fields
              (if negb (String.eqb v "") then key ++ ": " ++ v
               else key ++ ": null")
            = Some (setField key v fields)).
  { intros key v fields Hin Hc.
    destruct (String.eqb_spec v "") as [->|Hv]; cbn [negb].
    - simpl in Hin. destruct Hin as [<-|[<-|[<-|[<-|[]]]]]; reflexivity.
    - apply Hkey; [simpl in *; tauto|exact Hc|exact Hv]. }
  cbn [Beads.parseLines].
  change (parseLine before "") with (Some before). cbv iota.
  rewrite (Hwritten "role_type" v1) by (simpl; auto).
  rewrite (Hnullable "rig" v2) by (simpl; auto).
  rewrite (Hwritten "agent_state" v3) by (simpl; auto).
  rewrite (Hnullable "hook_bead" v4) by (simpl; auto).
  rewrite (Hnullable "role_bead" v5) by (simpl; auto).
  rewrite (Hnullable "cleanup_status" v6) by (simpl; auto 6).
  reflexivity.
Qed.

Lemma field_line_no_LF (key nullLine v : string) :
  hasByte LF key = false → hasByte LF nullLine = false →
  cleanValue v = true →
  hasByte LF (key ++ v) = false
  ∧ hasByte LF (if negb (String.eqb v "") then key ++ v else nullLine) = false.
Proof.
  intros Hkey Hnull Hv%cleanValue_no_LF.
  assert (Hline : hasByte LF (key ++ v) = false)
    by (by rewrite hasByte_app, Hkey, Hv).
  split; [exact Hline|].
  by destruct (negb (String.eqb v "")).
Qed.

(** Writing fields into a description and reading the description gives
    the fields back, whatever the title is: its lines are read first, and
    the six lines written after it set every field again.  The values must
    be clean: one line, no white space around it, and not the word [null],
    which stands for the empty value. *)
Theorem description_roundtrip (title : string) (f : AgentFields) :
  cleanFields f = true →
  ParseAgentFields (FormatAgentDescription title (Some f)) = Some f.
Proof.
  intros Hclean. pose proof Hclean as Hsix.
  unfold cleanFields in Hclean. rewrite !andb_true_iff in Hclean.
  destruct Hclean as [[[[[H1 H2] H3] H4] H5] H6].
  destruct (field_line_no_LF "role_type: " "" _ eq_refl eq_refl H1)
    as [L1 _].
  destruct (field_line_no_LF "rig: " "rig: null" _ eq_refl eq_refl H2)
    as [_ L2].
  destruct (field_line_no_LF "agent_state: " "" _ eq_refl eq_refl H3)
    as [L3 _].
  destruct (field_line_no_LF "hook_bead: " "hook_bead: null" _
              eq_refl eq_refl H4) as [_ L4].
  destruct (field_line_no_LF "role_bead: " "role_bead: null" _
              eq_refl eq_refl H5) as [_ L5].
  destruct (field_line_no_LF "cleanup_status: " "cleanup_status: null" _
              eq_refl eq_refl H6) as [_ L6].
  unfold Beads.ParseAgentFields, FormatAgentDescription. cbn [Join].
  change (title ++ String LF "" ++ ?rest)
    with (title ++ String LF rest).
  rewrite Split_app_sep.
  change ("" ++ String LF "" ++ ?rest) with ("" ++ String LF rest).
  rewrite (Split_first LF "" _ eq_refl).
  repeat match goal with
         | |- context [Split (?line ++ String LF "" ++ ?rest) LF] =>
             change (line ++ String LF "" ++ rest)
               with (line ++ String LF rest);
             rewrite (Split_first LF line rest) by assumption
         end.
  rewrite (Split_absent LF _ L6), parseLines_app.
  destruct (parseLines_total (Split title LF) (mkFields "" "" "" "" "" ""))
    as [before ->].
  by apply six_lines_set_fields.
Qed.

(** [ParseAgentFields] never fails, not even by a slice out of range; a
    [nil] set of fields formats to the bare title; text added after a line
    feed continues the reading from the fields read so far, so later lines
    win; and an added line without a colon changes nothing. *)
Theorem description_lines (title d more : string) :
  (∃ f : AgentFields, ParseAgentFields d = Some f)
  ∧ FormatAgentDescription title None = title
  ∧ ParseAgentFields (d ++ String LF more)
    = match ParseAgentFields d with
      | Some f => parseLines f (Split more LF)
      | None => None
      end
  ∧ (hasByte ":" more = false → hasByte LF more = false →
     ParseAgentFields (d ++ String LF more) = ParseAgentFields d).
Proof.
  assert (Hmore : ParseAgentFields (d ++ String LF more)
            = match ParseAgentFields d with
              | Some f => parseLines f (Split more LF)
              | None => None
              end).
  { unfold Beads.ParseAgentFields. by rewrite Split_app_sep, parseLines_app. }
  split; [apply parseLines_total|]. split; [reflexivity|].
  split; [exact Hmore|].
  intros Hcolon Hline. rewrite Hmore.
  destruct (ParseAgentFields d) as [f|]; [|reflexivity].
  rewrite (Split_absent LF more Hline). cbn [Beads.parseLines].
  by rewrite (parseLine_no_colon f more Hcolon).
Qed.

End AgentDescriptions.

Lemma description_roundtrip_witness :
  Beads.ParseAgentFields (fun s => s)
    (Beads.FormatAgentDescription "Toast: the polecat"
       (Some (Beads.mkFields "polecat" "gastown" "working" "" "" "clean")))
  = Some (Beads.mkFields "polecat" "gastown" "working" "" "" "clean").
Proof. apply description_roundtrip. vm_compute. reflexivity. Defined.

Lemma description_lines_witness :
  Beads.ParseAgentFields (fun s => s)
    ("rig: gastown" ++ String LF "no field here")
  = Beads.ParseAgentFields (fun s => s) "rig: gastown".
Proof.
  destruct (description_lines (fun s => s) "" "rig: gastown" "no field here")
    as (_ & _ & _ & Hsame).
  apply Hsame; reflexivity.
Defined.

(** ** Prefix choice and trailing slashes *)

Section PrefixAndSlash.

Context (reg : Registry).


(** What a session name is made of.  The name of a rig role starts with
    the prefix that [rigPrefix] chooses, followed by [-witness],
    [-refinery], [-crew-] and the name, or [-] and the name.  The chosen
    prefix is the identity's own when it has one, whatever the registry
    holds; without one, and with a rig, it is the prefix the registry has
    for the rig; with neither it is empty.  The mayor is [hq-mayor] and the
    deacon [hq-deacon], or [hq-boot] under the name [boot], whatever the
    prefix, the rig and the registry are. *)
Theorem session_name_prefix_choice (a : AgentIdentity) :
  (idRole a = RoleWitness → SessionName reg a = rigPrefix reg a ++ "-witness")
  ∧ (idRole a = RoleRefinery →
     SessionName reg a = rigPrefix reg a ++ "-refinery")
  ∧ (idRole a = RoleCrew →
     SessionName reg a = rigPrefix reg a ++ "-crew-" ++ idName a)
  ∧ (idRole a = RolePolecat →
     SessionName reg a = rigPrefix reg a ++ "-" ++ idName a)
  ∧ (idPrefix a ≠ "" → rigPrefix reg a = idPrefix a)
  ∧ (idPrefix a = "" → idRig a ≠ "" →
     rigPrefix reg a = PrefixForRig reg (idRig a))
  ∧ (idPrefix a = "" → idRig a = "" → rigPrefix reg a = "")
  ∧ (idRole a = RoleMayor → SessionName reg a = "hq-mayor")
  ∧ (idRole a = RoleDeacon →
     SessionName reg a
     = if String.eqb (idName a) "boot" then "hq-boot" else "hq-deacon").
Proof.
  repeat match goal with |- _ ∧ _ => split end.
  - unfold SessionName. by intros ->.
  - unfold SessionName. by intros ->.
  - unfold SessionName. by intros ->.
  - unfold SessionName. by intros ->.
  - apply rigPrefix_own.
  - intros Hnone Hrig. unfold rigPrefix. rewrite Hnone. cbn [negb String.eqb].
    destruct (String.eqb_spec (idRig a) ""); [contradiction|]. cbn [negb andb].
    destruct (String.eqb_spec (PrefixForRig reg (idRig a)) "") as [Hx|_];
      [by rewrite Hx|reflexivity].
  - intros Hnone Hrig. unfold rigPrefix. by rewrite Hnone, Hrig.
  - unfold SessionName. by intros ->.
  - unfold SessionName. intros ->. cbn [String.eqb Ascii.eqb Bool.eqb].
    by destruct (String.eqb (idName a) "boot").
Qed.


End PrefixAndSlash.

Lemma session_name_prefix_choice_witness :
  SessionName (RegisterPrefix emptyRegistry "gt" "gastown")
    (mkIdentity RoleWitness "gastown" "" "")
  = "gt" ++ "-witness".
Proof.
  destruct (session_name_prefix_choice
              (RegisterPrefix emptyRegistry "gt" "gastown")
              (mkIdentity RoleWitness "gastown" "" ""))
    as (Hwitness & _ & _ & _ & _ & Hlookup & _).
  rewrite (Hwitness eq_refl), Hlookup; [reflexivity|reflexivity|discriminate].
Defined.

